(** * DarlingServer::Registry — a dual-keyed registry of shared entries

    Shallow embedding of [internal-include/darlingserver/registry.hpp].

    [Registry<Entry>] keeps two [std::unordered_map]s over the same
    reference-counted entries: [_map], keyed by [Entry::ID], and [_nsmap],
    keyed by [Entry::NSID].  Every public method runs under the registry's
    [std::shared_mutex]; [registerIfAbsent] additionally raises a
    thread-local flag around the call of the entry factory, so that lookups
    made by the factory do not take the lock a second time. *)

From stdpp Require Import base option list gmap.
From Stdlib Require Import ZArith Lia.

(** ** Outcomes of a method call

    A call returns, leaves by an exception thrown by the entry factory, or
    dereferences a null [std::shared_ptr] (undefined behaviour). *)

Inductive outcome (A : Type) : Type :=
| Returns (a : A)
| Throws
| NullDeref.
Arguments Returns {A} a.
Arguments Throws {A}.
Arguments NullDeref {A}.

(** What a thread does to [_rwlock], and when it calls an entry factory. *)
Inductive event : Type :=
| LockExclusive
| UnlockExclusive
| LockShared
| UnlockShared
| FactoryCall.

Global Instance event_eq_dec : EqDecision event.
Proof. solve_decision. Defined.

(** ** The template parameter [Entry]

    Its member types [ID] and [NSID], the live [Entry] objects (an [EntryRef]
    is the address of one, so equality on [EntryRef] is pointer identity), and
    the accessors [id()] and [nsid()].  The headers that declare the entry
    classes are not part of the registry; the registry sees them through this
    interface only, as the template does.  [ID_to_NSID] and [NSID_to_ID] are
    the implicit conversions between the two key types that C++ applies where
    a value of one is passed for a parameter of the other. *)
Class EntryClass (ID NSID EntryRef : Type)
    `{Countable ID} `{Countable NSID} `{EqDecision EntryRef} : Type := {
  id : EntryRef -> ID;
  nsid : EntryRef -> NSID;
  ID_to_NSID : ID -> NSID;
  NSID_to_ID : NSID -> ID;
}.

Section registry.

Context {ID NSID EntryRef : Type}.
Context `{EntryClass ID NSID EntryRef}.

(** [std::shared_ptr<Entry>]: null, or the address of a live entry. *)
Definition shared_ptr : Type := option EntryRef.

(** The two maps.  Every store into either of them, [_map[entry->id()] =
    entry] and [_nsmap[entry->nsid()] = entry], dereferences the stored
    pointer first, so the stored pointers are never null and the maps are
    typed at [EntryRef]. *)
Record Registry : Type := mkRegistry {
  _map : gmap ID EntryRef;
  _nsmap : gmap NSID EntryRef;
}.

(** The state one thread sees: the registry, the thread's own copy of the
    [thread_local] flag, and the log of what the thread has done so far
    (most recent event last). *)
Record state : Type := mkState {
  registry : Registry;
  _registeringWithLockHeld : bool;
  log : list event;
}.

Definition M (A : Type) : Type := state -> outcome A * state.

Definition ret {A} (a : A) : M A := fun s => (Returns a, s).
Definition throw {A} : M A := fun s => (Throws, s).
Definition null_deref {A} : M A := fun s => (NullDeref, s).

Definition bind {A B} (m : M A) (k : A -> M B) : M B :=
  fun s =>
    match m s with
    | (Returns a, s') => k a s'
    | (Throws, s') => (Throws, s')
    | (NullDeref, s') => (NullDeref, s')
    end.

Notation "x <- m ;; k" := (bind m (fun x => k))
  (at level 100, m at next level, right associativity).
Notation "m ;; k" := (bind m (fun _ => k))
  (at level 100, right associativity).

Definition emit (e : event) : M unit :=
  fun s => (Returns tt, mkState (registry s) (_registeringWithLockHeld s) (log s ++ [e])).

Definition get_registry : M Registry := fun s => (Returns (registry s), s).

Definition put_registry (r : Registry) : M unit :=
  fun s => (Returns tt, mkState r (_registeringWithLockHeld s) (log s)).

Definition get_flag : M bool := fun s => (Returns (_registeringWithLockHeld s), s).

Definition set_flag (b : bool) : M unit :=
  fun s => (Returns tt, mkState (registry s) b (log s)).

(** [std::unique_lock lock(_rwlock)] at the head of a method body: the lock
    is taken, and the destructor releases it when the body is left by a
    return or by an exception. *)
Definition with_unique_lock {A} (body : M A) : M A :=
  fun s =>
    match (emit LockExclusive ;; body) s with
    | (Returns a, s') => (_ <- emit UnlockExclusive ;; ret a) s'
    | (Throws, s') => (_ <- emit UnlockExclusive ;; throw) s'
    | (NullDeref, s') => (NullDeref, s')
    end.

(** [std::shared_lock lock(_rwlock, std::defer_lock)] followed by
    [if (!_registeringWithLockHeld) lock.lock();]: the destructor releases
    the lock only if it was taken. *)
Definition with_deferred_shared_lock {A} (body : M A) : M A :=
  held <- get_flag ;;
  if negb held
  then (emit LockShared ;; a <- body ;; emit UnlockShared ;; ret a)
  else body.

(** [_map.find(k)] and [_nsmap.find(k)]: [None] is [end()]. *)
Definition map_find (k : ID) : M (option EntryRef) :=
  r <- get_registry ;; ret (_map r !! k).
Definition nsmap_find (k : NSID) : M (option EntryRef) :=
  r <- get_registry ;; ret (_nsmap r !! k).

(** [_map[k] = entry] and [_nsmap[k] = entry]. *)
Definition map_assign (k : ID) (entry : EntryRef) : M unit :=
  r <- get_registry ;; put_registry (mkRegistry (<[k := entry]> (_map r)) (_nsmap r)).
Definition nsmap_assign (k : NSID) (entry : EntryRef) : M unit :=
  r <- get_registry ;; put_registry (mkRegistry (_map r) (<[k := entry]> (_nsmap r))).

(** [_map.erase(it)] and [_nsmap.erase(it2)], for an iterator at key [k]. *)
Definition map_erase (k : ID) : M unit :=
  r <- get_registry ;; put_registry (mkRegistry (delete k (_map r)) (_nsmap r)).
Definition nsmap_erase (k : NSID) : M unit :=
  r <- get_registry ;; put_registry (mkRegistry (_map r) (delete k (_nsmap r))).

(** [entry->...]: undefined behaviour on a null pointer. *)
Definition deref (entry : shared_ptr) : M EntryRef :=
  match entry with
  | Some e => ret e
  | None => null_deref
  end.

(** ** Lookups *)

Definition lookupEntryByID (id_ : ID) : M (option shared_ptr) :=
  with_deferred_shared_lock (
    it <- map_find id_ ;;
    match it with
    | None => ret None
    | Some second => ret (Some (Some second))
    end).

(** The parameter is declared [ID nsid] in the source, not [NSID nsid]. *)
Definition lookupEntryByNSID (nsid_ : ID) : M (option shared_ptr) :=
  with_deferred_shared_lock (
    it2 <- nsmap_find (ID_to_NSID nsid_) ;;
    match it2 with
    | None => ret None
    | Some second => ret (Some (Some second))
    end).

(** The call [lookupEntryByNSID(n)] with [n] of type [NSID], as the callers
    of the registry write it: [n] is converted to the parameter's type. *)
Definition call_lookupEntryByNSID (n : NSID) : M (option shared_ptr) :=
  lookupEntryByNSID (NSID_to_ID n).

(** ** Entry factories

    [std::function<std::shared_ptr<Entry>()>].  A factory runs with the
    registry's exclusive lock held, so the only methods of this registry it
    can call are the two lookups; it ends by returning a pointer or by
    throwing. *)
Inductive Factory : Type :=
| FReturn (entry : shared_ptr)
| FThrow
| FLookupEntryByID (id_ : ID) (k : option shared_ptr -> Factory)
| FLookupEntryByNSID (nsid_ : ID) (k : option shared_ptr -> Factory).

Fixpoint run_factory (f : Factory) : M shared_ptr :=
  match f with
  | FReturn entry => ret entry
  | FThrow => throw
  | FLookupEntryByID id_ k => r <- lookupEntryByID id_ ;; run_factory (k r)
  | FLookupEntryByNSID nsid_ k => r <- lookupEntryByNSID nsid_ ;; run_factory (k r)
  end.

Definition call_factory (entryFactory : Factory) : M shared_ptr :=
  emit FactoryCall ;; run_factory entryFactory.

(** ** Registration *)

Definition registerIfAbsent (nsid_ : NSID) (entryFactory : Factory) : M shared_ptr :=
  with_unique_lock (
    it2 <- nsmap_find nsid_ ;;
    match it2 with
    | Some second => ret (Some second)
    | None =>
        set_flag true ;;
        entry <- call_factory entryFactory ;;
        set_flag false ;;
        e <- deref entry ;;
        map_assign (id e) e ;;
        e <- deref entry ;;
        nsmap_assign (nsid e) e ;;
        ret entry
    end).

(** [!replace && (_map.find(entry->id()) != _map.end() ||
    _nsmap.find(entry->nsid()) != _nsmap.end())], with its short-circuit
    evaluation. *)
Definition registerEntry_rejects (entry : shared_ptr) (replace : bool) : M bool :=
  if negb replace
  then
    e <- deref entry ;;
    it <- map_find (id e) ;;
    if bool_decide (it ≠ None)
    then ret true
    else
      e <- deref entry ;;
      it2 <- nsmap_find (nsid e) ;;
      ret (bool_decide (it2 ≠ None))
  else ret false.

Definition registerEntry (entry : shared_ptr) (replace : bool) : M bool :=
  with_unique_lock (
    rejects <- registerEntry_rejects entry replace ;;
    if rejects
    then ret false
    else
      e <- deref entry ;;
      map_assign (id e) e ;;
      e <- deref entry ;;
      nsmap_assign (nsid e) e ;;
      ret true).

(** ** Removal *)

Definition unregisterEntryByID (id_ : ID) : M bool :=
  with_unique_lock (
    it <- map_find id_ ;;
    match it with
    | None => ret false
    | Some entry =>
        it2 <- nsmap_find (nsid entry) ;;
        match it2 with
        | None => ret false
        | Some _ =>
            map_erase id_ ;;
            nsmap_erase (nsid entry) ;;
            ret true
        end
    end).

Definition unregisterEntryByNSID (nsid_ : NSID) : M bool :=
  with_unique_lock (
    it2 <- nsmap_find nsid_ ;;
    match it2 with
    | None => ret false
    | Some entry =>
        it <- map_find (id entry) ;;
        match it with
        | None => ret false
        | Some _ =>
            map_erase (id entry) ;;
            nsmap_erase nsid_ ;;
            ret true
        end
    end).

Definition unregisterEntry (entry : shared_ptr) : M bool :=
  with_unique_lock (
    e <- deref entry ;;
    it <- map_find (id e) ;;
    it2 <- nsmap_find (nsid e) ;;
    match it, it2 with
    | Some second, Some second2 =>
        if bool_decide (second ≠ e) || bool_decide (second2 ≠ e)
        then ret false
        else
          map_erase (id e) ;;
          nsmap_erase (nsid e) ;;
          ret true
    | _, _ => ret false
    end).

(** ** Auxiliary definitions for stating the results of the methods *)

(** [std::optional<std::shared_ptr<Entry>>] built from the result of
    [find]: [std::nullopt] at [end()], else the pointer found. *)
Definition optional (o : option EntryRef) : option shared_ptr :=
  match o with
  | None => None
  | Some second => Some (Some second)
  end.

(** The state after a method that took and released the exclusive lock,
    left registry [r] and flag [b] behind, and logged [evs] in between. *)
Definition after_exclusive (s : state) (r : Registry) (b : bool) (evs : list event) : state :=
  mkState r b (log s ++ LockExclusive :: evs ++ [UnlockExclusive]).

Definition erase_both (r : Registry) (i : ID) (n : NSID) : Registry :=
  mkRegistry (delete i (_map r)) (delete n (_nsmap r)).

Definition store_both (r : Registry) (e : EntryRef) : Registry :=
  mkRegistry (<[id e := e]> (_map r)) (<[nsid e := e]> (_nsmap r)).

(** One of [e]'s keys is taken in [r]. *)
Definition taken (r : Registry) (e : EntryRef) : Prop :=
  is_Some (_map r !! id e) \/ is_Some (_nsmap r !! nsid e).

(** ** Sequences of calls made by one thread *)

Inductive call : Type :=
| CallRegisterIfAbsent (nsid_ : NSID) (entryFactory : Factory)
| CallRegisterEntry (entry : shared_ptr) (replace : bool)
| CallUnregisterEntryByID (id_ : ID)
| CallUnregisterEntryByNSID (nsid_ : NSID)
| CallUnregisterEntry (entry : shared_ptr)
| CallLookupEntryByID (id_ : ID)
| CallLookupEntryByNSID (nsid_ : ID).

(** The state a call leaves behind; the caller drops the result and, where
    the factory threw, catches the exception. *)
Definition run_call (c : call) (s : state) : state :=
  match c with
  | CallRegisterIfAbsent nsid_ entryFactory => snd (registerIfAbsent nsid_ entryFactory s)
  | CallRegisterEntry entry replace => snd (registerEntry entry replace s)
  | CallUnregisterEntryByID id_ => snd (unregisterEntryByID id_ s)
  | CallUnregisterEntryByNSID nsid_ => snd (unregisterEntryByNSID nsid_ s)
  | CallUnregisterEntry entry => snd (unregisterEntry entry s)
  | CallLookupEntryByID id_ => snd (lookupEntryByID id_ s)
  | CallLookupEntryByNSID nsid_ => snd (lookupEntryByNSID nsid_ s)
  end.

Definition run_calls (cs : list call) (s : state) : state :=
  fold_left (fun s c => run_call c s) cs s.

(** ** Properties of registry states *)

(** Index consistency (I1): every entry of either map is stored under its
    own key there, and the other map holds the same pointer under the
    entry's other key. *)
Definition I1 (r : Registry) : Prop :=
  map_Forall (fun k e => id e = k /\ _nsmap r !! nsid e = Some e) (_map r) /\
  map_Forall (fun k e => nsid e = k /\ _map r !! id e = Some e) (_nsmap r).

Global Instance I1_dec (r : Registry) : Decision (I1 r).
Proof. unfold I1. apply _. Defined.

(** [e] is registered: both maps hold this very pointer under its keys. *)
Definition registered (r : Registry) (e : EntryRef) : Prop :=
  _map r !! id e = Some e /\ _nsmap r !! nsid e = Some e.

(** No entry of the registry shares exactly one key with [e]: whatever is
    stored under [e]'s internal ID has [e]'s namespace ID, and whatever is
    stored under [e]'s namespace ID has [e]'s internal ID. *)
Definition clean_slot (r : Registry) (e : EntryRef) : Prop :=
  (forall h, _map r !! id e = Some h -> nsid h = nsid e) /\
  (forall h, _nsmap r !! nsid e = Some h -> id h = id e).

(** What a factory hands back when it runs against registry [r] from inside
    [registerIfAbsent], that is, with the thread's flag raised. *)
Definition factory_result (f : Factory) (r : Registry) : outcome shared_ptr :=
  fst (run_factory f (mkState r true [])).

(** How often the thread has called an entry factory so far. *)
Definition factory_calls (s : state) : nat :=
  length (filter (fun e => e = FactoryCall) (log s)).

(** How often the thread has taken [_rwlock] in shared mode so far. *)
Definition shared_acquisitions (s : state) : nat :=
  length (filter (fun e => e = LockShared) (log s)).

(** The call [c], made in state [s], erases an index entry stored under one
    of [e]'s keys, or stores another entry under one of them. *)
Definition disturbs (e : EntryRef) (c : call) (s : state) : Prop :=
  match c with
  | CallUnregisterEntryByID id_ =>
      exists e', _map (registry s) !! id_ = Some e' /\
        is_Some (_nsmap (registry s) !! nsid e') /\
        (id_ = id e \/ nsid e' = nsid e)
  | CallUnregisterEntryByNSID nsid_ =>
      exists e', _nsmap (registry s) !! nsid_ = Some e' /\
        is_Some (_map (registry s) !! id e') /\
        (nsid_ = nsid e \/ id e' = id e)
  | CallUnregisterEntry entry => entry = Some e
  | CallRegisterEntry entry replace =>
      replace = true /\
      exists e', entry = Some e' /\ e' <> e /\ (id e' = id e \/ nsid e' = nsid e)
  | CallRegisterIfAbsent nsid_ entryFactory =>
      _nsmap (registry s) !! nsid_ = None /\
      exists e', factory_result entryFactory (registry s) = Returns (Some e') /\
        e' <> e /\ (id e' = id e \/ nsid e' = nsid e)
  | CallLookupEntryByID _ | CallLookupEntryByNSID _ => False
  end.

Fixpoint undisturbed (e : EntryRef) (cs : list call) (s : state) : Prop :=
  match cs with
  | [] => True
  | c :: cs' => ~ disturbs e c s /\ undisturbed e cs' (run_call c s)
  end.

End registry.

Arguments Registry ID NSID EntryRef {_ _ _ _}.
Arguments state ID NSID EntryRef {_ _ _ _}.
Arguments Factory ID EntryRef : clear implicits.
Arguments shared_ptr EntryRef : clear implicits.

(** ** Threads racing through [registerIfAbsent]

    The interleaving semantics of several threads that each make one call
    [registerIfAbsent(nsid, entryFactory)] on the same registry.  A thread
    advances by one of the steps of the method body at a time; between two
    steps of one thread any other thread may move.  The only thing that
    orders them is [_rwlock]. *)

Section concurrent.

Context {ID NSID EntryRef : Type}.
Context `{EntryClass ID NSID EntryRef}.

(** Where a thread stands in the body of [registerIfAbsent]. *)
Inductive pc : Type :=
| AtEntry                            (* before [std::unique_lock lock(_rwlock)] *)
| AtFind                             (* lock held, before [_nsmap.find(nsid)] *)
| InFactory (f : Factory ID EntryRef) (* inside [entryFactory()] *)
| AtStoreMap (entry : shared_ptr EntryRef)   (* before [_map[entry->id()] = entry] *)
| AtStoreNsmap (entry : shared_ptr EntryRef) (* before [_nsmap[entry->nsid()] = entry] *)
| AtReturn (result : shared_ptr EntryRef)    (* before the lock's destructor *)
| AtUnwind                           (* the factory threw; before the lock's destructor *)
| Returned (result : shared_ptr EntryRef)
| Threw
| Crashed.                           (* dereferenced a null pointer *)

Record thread : Type := mkThread {
  t_nsid : NSID;
  t_entryFactory : Factory ID EntryRef;
  t_pc : pc;
  t_registeringWithLockHeld : bool;
}.

(** The registry, the owner of [_rwlock] in exclusive mode if there is one,
    the threads, and the number of factory calls made so far. *)
Record system : Type := mkSystem {
  sys_registry : Registry ID NSID EntryRef;
  _rwlock : option nat;
  threads : list thread;
  sys_factory_calls : nat;
}.

Definition set_pc (th : thread) (p : pc) : thread :=
  mkThread (t_nsid th) (t_entryFactory th) p (t_registeringWithLockHeld th).

Definition set_pc_flag (th : thread) (p : pc) (b : bool) : thread :=
  mkThread (t_nsid th) (t_entryFactory th) p b.

(** One step of thread [t]; [None] when the thread cannot move: it does not
    exist, it has finished, or it waits for the lock.  A lookup made by the
    factory with the flag down would wait for the lock its own thread
    holds. *)
Definition step (t : nat) (σ : system) : option system :=
  match threads σ !! t with
  | None => None
  | Some th =>
      let r := sys_registry σ in
      let update r' l th' n := Some (mkSystem r' l (<[t := th']> (threads σ)) n) in
      match t_pc th with
      | AtEntry =>
          match _rwlock σ with
          | None => update r (Some t) (set_pc th AtFind) (sys_factory_calls σ)
          | Some _ => None
          end
      | AtFind =>
          match _nsmap r !! t_nsid th with
          | Some second =>
              update r (_rwlock σ) (set_pc th (AtReturn (Some second))) (sys_factory_calls σ)
          | None =>
              update r (_rwlock σ) (set_pc_flag th (InFactory (t_entryFactory th)) true)
                (S (sys_factory_calls σ))
          end
      | InFactory (FReturn entry) =>
          update r (_rwlock σ) (set_pc_flag th (AtStoreMap entry) false) (sys_factory_calls σ)
      | InFactory FThrow =>
          update r (_rwlock σ) (set_pc th AtUnwind) (sys_factory_calls σ)
      | InFactory (FLookupEntryByID id_ k) =>
          if t_registeringWithLockHeld th
          then update r (_rwlock σ) (set_pc th (InFactory (k (optional (_map r !! id_)))))
                 (sys_factory_calls σ)
          else None
      | InFactory (FLookupEntryByNSID nsid_ k) =>
          if t_registeringWithLockHeld th
          then update r (_rwlock σ)
                 (set_pc th (InFactory (k (optional (_nsmap r !! ID_to_NSID nsid_)))))
                 (sys_factory_calls σ)
          else None
      | AtStoreMap None => update r (_rwlock σ) (set_pc th Crashed) (sys_factory_calls σ)
      | AtStoreMap (Some e) =>
          update (mkRegistry (<[id e := e]> (_map r)) (_nsmap r)) (_rwlock σ)
            (set_pc th (AtStoreNsmap (Some e))) (sys_factory_calls σ)
      | AtStoreNsmap None => update r (_rwlock σ) (set_pc th Crashed) (sys_factory_calls σ)
      | AtStoreNsmap (Some e) =>
          update (mkRegistry (_map r) (<[nsid e := e]> (_nsmap r))) (_rwlock σ)
            (set_pc th (AtReturn (Some e))) (sys_factory_calls σ)
      | AtReturn result => update r None (set_pc th (Returned result)) (sys_factory_calls σ)
      | AtUnwind => update r None (set_pc th Threw) (sys_factory_calls σ)
      | Returned _ | Threw | Crashed => None
      end
  end.

(** A schedule names the thread to move next; a thread that cannot move
    leaves the system as it is. *)
Fixpoint run (schedule : list nat) (σ : system) : system :=
  match schedule with
  | [] => σ
  | t :: schedule' => run schedule' (default σ (step t σ))
  end.

(** The threads before any of them has started: one per factory, all with
    the same key. *)
Definition race (r : Registry ID NSID EntryRef) (nsid_ : NSID)
    (factories : list (Factory ID EntryRef)) : system :=
  mkSystem r None (map (fun f => mkThread nsid_ f AtEntry false) factories) 0.

Definition all_returned (σ : system) : Prop :=
  Forall (fun th => exists result, t_pc th = Returned result) (threads σ).

(** Every thread got the same pointer [e]. *)
Definition all_received (e : EntryRef) (σ : system) : Prop :=
  Forall (fun th => t_pc th = Returned (Some e)) (threads σ).

(** The factory returns, whatever its lookups find, a non-null entry whose
    own namespace ID is [nsid_]. *)
Fixpoint creates_for (nsid_ : NSID) (f : Factory ID EntryRef) : Prop :=
  match f with
  | FReturn (Some e) => nsid e = nsid_
  | FReturn None => False
  | FThrow => False
  | FLookupEntryByID _ k => forall r, creates_for nsid_ (k r)
  | FLookupEntryByNSID _ k => forall r, creates_for nsid_ (k r)
  end.

(** *** The invariant of a race for one key

Before any factory has been called the key is absent ([Fresh]); while the
one thread that found it absent is between its [find] and its second store
the key is still absent and the lock is held ([Creating]); from then on the
key maps to the entry that thread stored ([Created]). *)
Inductive phase : Type :=
| Fresh
| Creating
| Created (e : EntryRef).

Definition phase_ok (nsid_ : NSID) (ph : phase) (σ : system) : Prop :=
  match ph with
  | Fresh => sys_factory_calls σ = 0 /\ _nsmap (sys_registry σ) !! nsid_ = None
  | Creating =>
      sys_factory_calls σ = 1 /\ _nsmap (sys_registry σ) !! nsid_ = None /\
      is_Some (_rwlock σ)
  | Created e => sys_factory_calls σ = 1 /\ _nsmap (sys_registry σ) !! nsid_ = Some e
  end.

(** What thread [t] may be doing, given who holds the lock and the phase. *)
Definition thread_ok (nsid_ : NSID) (lock : option nat) (ph : phase)
    (t : nat) (th : thread) : Prop :=
  t_nsid th = nsid_ /\ creates_for nsid_ (t_entryFactory th) /\
  match t_pc th with
  | AtEntry => lock <> Some t
  | AtFind => lock = Some t /\ ph <> Creating
  | InFactory f =>
      lock = Some t /\ ph = Creating /\ creates_for nsid_ f /\
      t_registeringWithLockHeld th = true
  | AtStoreMap entry | AtStoreNsmap entry =>
      lock = Some t /\ ph = Creating /\ exists e, entry = Some e /\ nsid e = nsid_
  | AtReturn result => lock = Some t /\ exists e, result = Some e /\ ph = Created e
  | Returned result => lock <> Some t /\ exists e, result = Some e /\ ph = Created e
  | AtUnwind | Threw | Crashed => False
  end.

Definition race_invariant (nsid_ : NSID) (σ : system) : Prop :=
  exists ph,
    phase_ok nsid_ ph σ /\
    (forall t th, threads σ !! t = Some th -> thread_ok nsid_ (_rwlock σ) ph t th) /\
    (forall h, _rwlock σ = Some h -> is_Some (threads σ !! h)).

(** Thread [t], scheduled alone for long enough, returns and releases the
    lock; the other threads are where they were. *)
Definition finishes (t : nat) (σ : system) : Prop :=
  exists (n : nat) (th' : thread),
    threads (run (replicate n t) σ) = <[t := th']> (threads σ) /\
    (exists result, t_pc th' = Returned result) /\
    _rwlock (run (replicate n t) σ) = None.

(** Thread [t], scheduled alone, takes the system from [σ] to [σ']. *)
Definition solo (t : nat) (σ σ' : system) : Prop :=
  exists n : nat, run (replicate n t) σ = σ'.

(** Where a thread ends for each outcome of the method. *)
Definition pc_of_outcome (o : outcome (shared_ptr EntryRef)) : pc :=
  match o with
  | Returns result => Returned result
  | Throws => Threw
  | NullDeref => Crashed
  end.

End concurrent.

Arguments pc ID EntryRef : clear implicits.
Arguments thread ID NSID EntryRef : clear implicits.
Arguments system ID NSID EntryRef {_ _ _ _}.
Arguments phase EntryRef : clear implicits.

(** ** The lock events of a thread, and the lock among racing threads *)

Section locking.

Context {ID NSID EntryRef : Type}.
Context `{EntryClass ID NSID EntryRef}.

(** How a call ends, whatever it returns. *)
Definition forget {A : Type} (o : outcome A) : outcome unit :=
  match o with
  | Returns _ => Returns tt
  | Throws => Throws
  | NullDeref => NullDeref
  end.

Definition call_outcome (c : call) (s : state ID NSID EntryRef) : outcome unit :=
  match c with
  | CallRegisterIfAbsent nsid_ entryFactory => forget (fst (registerIfAbsent nsid_ entryFactory s))
  | CallRegisterEntry entry replace => forget (fst (registerEntry entry replace s))
  | CallUnregisterEntryByID id_ => forget (fst (unregisterEntryByID id_ s))
  | CallUnregisterEntryByNSID nsid_ => forget (fst (unregisterEntryByNSID nsid_ s))
  | CallUnregisterEntry entry => forget (fst (unregisterEntry entry s))
  | CallLookupEntryByID id_ => forget (fst (lookupEntryByID id_ s))
  | CallLookupEntryByNSID nsid_ => forget (fst (lookupEntryByNSID nsid_ s))
  end.

(** No call of the sequence runs into a null dereference. *)
Fixpoint no_crash (cs : list call) (s : state ID NSID EntryRef) : Prop :=
  match cs with
  | [] => True
  | c :: cs' => call_outcome c s <> NullDeref /\ no_crash cs' (run_call c s)
  end.

(** What one thread holds of [_rwlock]. *)
Inductive lock_mode : Type :=
| Unlocked
| HeldExclusive
| HeldShared.

(** Follows a thread's events from lock mode [m]: the thread takes the lock
    only when it holds nothing, releases what it holds, and calls factories
    with the exclusive lock held.  [None] when an event does not fit: for a
    [std::shared_mutex], locking it again from the thread that holds it is
    a deadlock. *)
Fixpoint lock_mode_after (m : lock_mode) (evs : list event) : option lock_mode :=
  match evs with
  | [] => Some m
  | ev :: evs' =>
      match m, ev with
      | Unlocked, LockExclusive => lock_mode_after HeldExclusive evs'
      | HeldExclusive, UnlockExclusive => lock_mode_after Unlocked evs'
      | HeldExclusive, FactoryCall => lock_mode_after HeldExclusive evs'
      | Unlocked, LockShared => lock_mode_after HeldShared evs'
      | HeldShared, UnlockShared => lock_mode_after Unlocked evs'
      | _, _ => None
      end
  end.

(** The events start and end with nothing held. *)
Definition well_locked (evs : list event) : Prop :=
  lock_mode_after Unlocked evs = Some Unlocked.

(** *** The lock among racing threads *)

(** The thread is between taking [_rwlock] and releasing it; a thread that
    ran into the null dereference never releases it. *)
Definition in_critical (p : pc ID EntryRef) : bool :=
  match p with
  | AtEntry | Returned _ | Threw => false
  | AtFind | InFactory _ | AtStoreMap _ | AtStoreNsmap _ | AtReturn _ | AtUnwind
  | Crashed => true
  end.

(** Nobody holds the lock and every thread is about to call. *)
Definition quiescent (σ : system ID NSID EntryRef) : Prop :=
  _rwlock σ = None /\ Forall (fun th => t_pc th = AtEntry) (threads σ).

(** A thread inside the critical section is the owner of the lock; inside a
    factory its flag is raised; and the owner of the lock is a thread inside
    the critical section. *)
Definition lock_discipline (σ : system ID NSID EntryRef) : Prop :=
  (forall t th, threads σ !! t = Some th -> in_critical (t_pc th) = true ->
                _rwlock σ = Some t) /\
  (forall t th g, threads σ !! t = Some th -> t_pc th = InFactory g ->
                  t_registeringWithLockHeld th = true) /\
  (forall h, _rwlock σ = Some h ->
             exists th, threads σ !! h = Some th /\ in_critical (t_pc th) = true).

(** [lock()] called by a thread [h]: it gets the lock when the lock is free
    and waits otherwise. *)
Definition sys_lock (h : nat) (σ : system ID NSID EntryRef) : option (system ID NSID EntryRef) :=
  match _rwlock σ with
  | None => Some (mkSystem (sys_registry σ) (Some h) (threads σ) (sys_factory_calls σ))
  | Some _ => None
  end.

(** [unlock()]. *)
Definition sys_unlock (σ : system ID NSID EntryRef) : system ID NSID EntryRef :=
  mkSystem (sys_registry σ) None (threads σ) (sys_factory_calls σ).

End locking.

(** ** Calls that keep the indexes consistent *)

Section clean_calls.

Context {ID NSID EntryRef : Type}.
Context `{EntryClass ID NSID EntryRef}.

(** The entry the call stores over what is there, if it stores one, shares
    no single key with a registered entry: the argument of a [registerEntry]
    with replacement, the entry returned by the factory of a
    [registerIfAbsent] that does not find its key. *)
Definition stores_cleanly (c : call) (s : state ID NSID EntryRef) : Prop :=
  match c with
  | CallRegisterEntry (Some e) true => clean_slot (registry s) e
  | CallRegisterIfAbsent nsid_ entryFactory =>
      forall e, _nsmap (registry s) !! nsid_ = None ->
                factory_result entryFactory (registry s) = Returns (Some e) ->
                clean_slot (registry s) e
  | _ => True
  end.

Fixpoint all_store_cleanly (cs : list call) (s : state ID NSID EntryRef) : Prop :=
  match cs with
  | [] => True
  | c :: cs' => stores_cleanly c s /\ all_store_cleanly cs' (run_call c s)
  end.

End clean_calls.

(** ** Two entry classes

    Entries live at addresses [0], [1], ...; [heap] lists, for each address,
    the values its [id()] and [nsid()] return. *)

Module Pid.

(** Both key types are the same integer type, as for a process or a thread
    whose two identifiers are both [pid_t]. *)
Definition heap : list (Z * Z) :=
  [(1, 100); (1, 200); (2, 100); (1, 100); (2, 200); (3, 300)]%Z.

Definition obj (a : nat) : Z * Z := nth a heap (0, 0)%Z.

#[export] Instance entry : EntryClass Z Z nat := {|
  id a := fst (obj a);
  nsid a := snd (obj a);
  ID_to_NSID i := i;
  NSID_to_ID n := n;
|}.

Definition empty : state Z Z nat := mkState (mkRegistry ∅ ∅) false [].

(** [A] has internal ID 1 and namespace ID 100; [B] shares [A]'s internal
    ID only, [C] shares [A]'s namespace ID only, and [D] is another object
    with both of [A]'s keys. *)
Definition A : nat := 0.
Definition B : nat := 1.
Definition C : nat := 2.
Definition D : nat := 3.

(** The registry after [registerEntry(A)]. *)
Definition with_A : state Z Z nat := snd (registerEntry (Some A) false empty).

(** A factory that looks an unrelated internal ID up and then throws. *)
Definition throwing_factory : Factory Z nat :=
  FLookupEntryByID 1%Z (fun _ => FThrow).

(** Two threads race for key 7 with factories whose entries have other
    namespace IDs; thread 0 runs first, then thread 1. *)
Definition mismatched_race : system Z Z nat :=
  race (registry empty) 7%Z [FReturn (Some A); FReturn (Some B)].

Definition one_after_the_other : list nat :=
  [0; 0; 0; 0; 0; 0; 1; 1; 1; 1; 1; 1]%nat.

(** Two threads race for key 100, under which [A] is registered already. *)
Definition late_race : system Z Z nat :=
  race (registry with_A) 100%Z [FReturn (Some C); FReturn (Some D)].

End Pid.

Module Narrow.

(** [ID] is [uint8_t] and [NSID] is [uint16_t]: passing an [NSID] for an
    [ID] parameter keeps its low eight bits, passing an [ID] for an [NSID]
    zero-extends it. *)
Inductive EntryRef : Type := E300 | E44.

#[export] Instance EntryRef_eq_dec : EqDecision EntryRef.
Proof. solve_decision. Defined.

#[export] Instance entry : EntryClass Z Z EntryRef := {|
  id e := match e with E300 => 1 | E44 => 2 end%Z;
  nsid e := match e with E300 => 300 | E44 => 44 end%Z;
  ID_to_NSID i := i;
  NSID_to_ID n := (n mod 2 ^ 8)%Z;
|}.

Definition empty : state Z Z EntryRef := mkState (mkRegistry ∅ ∅) false [].

End Narrow.

(** * Facts about the methods *)

Section registry_facts.

Context {ID NSID EntryRef : Type}.
Context `{EntryClass ID NSID EntryRef}.

Implicit Types (s : state ID NSID EntryRef) (r : Registry ID NSID EntryRef).
Implicit Types (e : EntryRef) (f : Factory ID EntryRef).

Lemma log_snoc2 (l : list event) a b : (l ++ [a]) ++ [b] = l ++ [a; b].
Proof. by rewrite <- app_assoc. Qed.

Lemma log_snoc3 (l : list event) a b c : ((l ++ [a]) ++ [b]) ++ [c] = l ++ [a; b; c].
Proof. by rewrite <- !app_assoc. Qed.

(** ** The methods in closed form *)

Lemma unregisterEntryByID_unfold s i :
  unregisterEntryByID i s =
    match _map (registry s) !! i with
    | Some entry =>
        match _nsmap (registry s) !! nsid entry with
        | Some _ =>
            (Returns true,
             after_exclusive s (erase_both (registry s) i (nsid entry))
               (_registeringWithLockHeld s) [])
        | None =>
            (Returns false, after_exclusive s (registry s) (_registeringWithLockHeld s) [])
        end
    | None => (Returns false, after_exclusive s (registry s) (_registeringWithLockHeld s) [])
    end.
Proof.
  unfold unregisterEntryByID, with_unique_lock, after_exclusive, erase_both, bind; cbn.
  destruct (_map (registry s) !! i) as [entry|]; cbn; [|by rewrite log_snoc2].
  destruct (_nsmap (registry s) !! nsid entry); cbn; by rewrite log_snoc2.
Qed.

Lemma unregisterEntryByNSID_unfold s n :
  unregisterEntryByNSID n s =
    match _nsmap (registry s) !! n with
    | Some entry =>
        match _map (registry s) !! id entry with
        | Some _ =>
            (Returns true,
             after_exclusive s (erase_both (registry s) (id entry) n)
               (_registeringWithLockHeld s) [])
        | None =>
            (Returns false, after_exclusive s (registry s) (_registeringWithLockHeld s) [])
        end
    | None => (Returns false, after_exclusive s (registry s) (_registeringWithLockHeld s) [])
    end.
Proof.
  unfold unregisterEntryByNSID, with_unique_lock, after_exclusive, erase_both, bind; cbn.
  destruct (_nsmap (registry s) !! n) as [entry|]; cbn; [|by rewrite log_snoc2].
  destruct (_map (registry s) !! id entry); cbn; by rewrite log_snoc2.
Qed.

Lemma unregisterEntry_unfold s e :
  unregisterEntry (Some e) s =
    if decide (registered (registry s) e)
    then (Returns true,
          after_exclusive s (erase_both (registry s) (id e) (nsid e))
            (_registeringWithLockHeld s) [])
    else (Returns false, after_exclusive s (registry s) (_registeringWithLockHeld s) []).
Proof.
  unfold unregisterEntry, with_unique_lock, after_exclusive, erase_both, registered, bind; cbn.
  destruct (_map (registry s) !! id e) as [second|] eqn:Hit; cbn;
    destruct (_nsmap (registry s) !! nsid e) as [second2|] eqn:Hit2; cbn;
    try (rewrite decide_False by (intros [? ?]; congruence); by rewrite log_snoc2).
  destruct (decide (second = e)) as [->|Hne].
  - destruct (decide (second2 = e)) as [->|Hne2].
    + rewrite !bool_decide_eq_false_2 by (intros Hc; by apply Hc); cbn.
      rewrite decide_True by done. by rewrite log_snoc2.
    + rewrite (bool_decide_eq_true_2 (second2 ≠ e)) by done.
      rewrite orb_true_r; cbn.
      rewrite decide_False by (intros [? ?]; congruence). by rewrite log_snoc2.
  - rewrite (bool_decide_eq_true_2 (second ≠ e)) by done; cbn.
    rewrite decide_False by (intros [? ?]; congruence). by rewrite log_snoc2.
Qed.

Lemma unregisterEntry_null s :
  unregisterEntry None s =
    (NullDeref, mkState (registry s) (_registeringWithLockHeld s) (log s ++ [LockExclusive])).
Proof. reflexivity. Qed.

Lemma registerEntry_unfold s e (replace : bool) :
  registerEntry (Some e) replace s =
    if decide (replace = false /\ taken (registry s) e)
    then (Returns false, after_exclusive s (registry s) (_registeringWithLockHeld s) [])
    else (Returns true,
          after_exclusive s (store_both (registry s) e) (_registeringWithLockHeld s) []).
Proof.
  unfold registerEntry, registerEntry_rejects, with_unique_lock, after_exclusive,
    store_both, taken, bind.
  destruct replace; cbn.
  { rewrite decide_False by (intros [? ?]; done). by rewrite log_snoc2. }
  destruct (_map (registry s) !! id e) as [second|] eqn:Hit; cbn.
  { rewrite decide_True by (split; [done|left; by eexists]). by rewrite log_snoc2. }
  destruct (_nsmap (registry s) !! nsid e) as [second2|] eqn:Hit2; cbn.
  { rewrite decide_True by (split; [done|right; by eexists]). by rewrite log_snoc2. }
  rewrite decide_False by (intros [_ [[? ?]|[? ?]]]; congruence). by rewrite log_snoc2.
Qed.

Lemma registerEntry_null s (replace : bool) :
  fst (registerEntry None replace s) = NullDeref /\
  registry (snd (registerEntry None replace s)) = registry s.
Proof. by destruct replace. Qed.

Lemma lookupEntryByID_unfold s i :
  lookupEntryByID i s =
    (Returns (optional (_map (registry s) !! i)),
     if _registeringWithLockHeld s then s
     else mkState (registry s) false (log s ++ [LockShared; UnlockShared])).
Proof.
  unfold lookupEntryByID, with_deferred_shared_lock, bind; cbn.
  destruct s as [r [] l]; cbn;
    destruct (_map r !! i); cbn; by rewrite ?log_snoc2.
Qed.

Lemma lookupEntryByNSID_unfold s i :
  lookupEntryByNSID i s =
    (Returns (optional (_nsmap (registry s) !! ID_to_NSID i)),
     if _registeringWithLockHeld s then s
     else mkState (registry s) false (log s ++ [LockShared; UnlockShared])).
Proof.
  unfold lookupEntryByNSID, with_deferred_shared_lock, bind; cbn.
  destruct s as [r [] l]; cbn;
    destruct (_nsmap r !! ID_to_NSID i); cbn; by rewrite ?log_snoc2.
Qed.

(** With the flag raised a factory touches neither the lock nor the log:
    all it does is compute its result from the registry. *)
Lemma run_factory_held f s :
  _registeringWithLockHeld s = true ->
  run_factory f s = (factory_result f (registry s), s).
Proof.
  intros Hheld. unfold factory_result.
  induction f as [entry| |i k IH|i k IH]; cbn; try done.
  - unfold bind. rewrite !lookupEntryByID_unfold, Hheld; cbn. apply IH.
  - unfold bind. rewrite !lookupEntryByNSID_unfold, Hheld; cbn. apply IH.
Qed.

Lemma factory_result_FLookupEntryByID i k r :
  factory_result (FLookupEntryByID i k) r = factory_result (k (optional (_map r !! i))) r.
Proof.
  unfold factory_result; cbn. unfold bind. by rewrite lookupEntryByID_unfold.
Qed.

Lemma factory_result_FLookupEntryByNSID i k r :
  factory_result (FLookupEntryByNSID i k) r =
    factory_result (k (optional (_nsmap r !! ID_to_NSID i))) r.
Proof.
  unfold factory_result; cbn. unfold bind. by rewrite lookupEntryByNSID_unfold.
Qed.

Lemma factory_result_defined f r : factory_result f r <> NullDeref.
Proof.
  unfold factory_result.
  induction f as [entry| |i k IH|i k IH]; cbn; try done.
  - unfold bind. rewrite lookupEntryByID_unfold; cbn. apply IH.
  - unfold bind. rewrite lookupEntryByNSID_unfold; cbn. apply IH.
Qed.

Lemma registerIfAbsent_unfold s n f :
  registerIfAbsent n f s =
    match _nsmap (registry s) !! n with
    | Some second =>
        (Returns (Some second),
         after_exclusive s (registry s) (_registeringWithLockHeld s) [])
    | None =>
        match factory_result f (registry s) with
        | Returns (Some e) =>
            (Returns (Some e),
             after_exclusive s (store_both (registry s) e) false [FactoryCall])
        | Returns None =>
            (NullDeref, mkState (registry s) false (log s ++ [LockExclusive; FactoryCall]))
        | Throws => (Throws, after_exclusive s (registry s) true [FactoryCall])
        | NullDeref =>
            (NullDeref, mkState (registry s) true (log s ++ [LockExclusive; FactoryCall]))
        end
    end.
Proof.
  unfold registerIfAbsent, with_unique_lock, call_factory, after_exclusive, store_both.
  unfold bind at 1 2 3; cbn.
  destruct (_nsmap (registry s) !! n) as [second|]; cbn; [by rewrite log_snoc2|].
  unfold bind at 1 2 3; cbn.
  rewrite run_factory_held by done; cbn.
  destruct (factory_result f (registry s)) as [[e|]| |]; cbn; by rewrite ?log_snoc3, ?log_snoc2.
Qed.

(** ** Index consistency under erasing and storing *)

Lemma I1_empty : I1 (mkRegistry (∅ : gmap ID EntryRef) (∅ : gmap NSID EntryRef)).
Proof. split; apply map_Forall_empty. Qed.

Lemma I1_lookup_map r k e : I1 r -> _map r !! k = Some e -> id e = k /\ registered r e.
Proof.
  intros [Hm Hn] Hk. destruct (Hm k e Hk) as [<- Hns]. by repeat split.
Qed.

Lemma I1_lookup_nsmap r k e : I1 r -> _nsmap r !! k = Some e -> nsid e = k /\ registered r e.
Proof.
  intros [Hm Hn] Hk. destruct (Hn k e Hk) as [<- Hi]. by repeat split.
Qed.

Lemma I1_erase_both r e : I1 r -> registered r e -> I1 (erase_both r (id e) (nsid e)).
Proof.
  intros HI [Hi Hn]. split; intros k h Hk; cbn in *.
  - apply lookup_delete_Some in Hk as [Hne Hk].
    destruct (I1_lookup_map r k h HI Hk) as [<- [_ Hhn]]. split; [done|].
    rewrite lookup_delete_ne; [done|]. intros Heq. rewrite Heq in Hn. congruence.
  - apply lookup_delete_Some in Hk as [Hne Hk].
    destruct (I1_lookup_nsmap r k h HI Hk) as [<- [Hhi _]]. split; [done|].
    rewrite lookup_delete_ne; [done|]. intros Heq. rewrite Heq in Hi. congruence.
Qed.

Lemma I1_store_both r e : I1 r -> clean_slot r e -> I1 (store_both r e).
Proof.
  intros HI [Hcm Hcn]. split; intros k h Hk; cbn in *.
  - apply lookup_insert_Some in Hk as [[<- <-]|[Hne Hk]].
    { split; [done|]. apply lookup_insert_eq. }
    destruct (I1_lookup_map r k h HI Hk) as [<- [_ Hhn]]. split; [done|].
    rewrite lookup_insert_ne; [done|]. intros Heq. rewrite <- Heq in Hhn.
    by specialize (Hcn h Hhn).
  - apply lookup_insert_Some in Hk as [[<- <-]|[Hne Hk]].
    { split; [done|]. apply lookup_insert_eq. }
    destruct (I1_lookup_nsmap r k h HI Hk) as [<- [Hhi _]]. split; [done|].
    rewrite lookup_insert_ne; [done|]. intros Heq. rewrite <- Heq in Hhi.
    by specialize (Hcm h Hhi).
Qed.

(** Storing an entry that shares exactly one key with a registered entry
    leaves that entry in one map only. *)
Lemma I1_store_both_inv r e : I1 r -> I1 (store_both r e) -> clean_slot r e.
Proof.
  intros HI [Hm' Hn']. split; intros h Hh.
  - destruct (I1_lookup_map r _ h HI Hh) as [Hid [_ Hhn]].
    destruct (decide (nsid h = nsid e)) as [|Hne]; [done|].
    assert (Hk : _nsmap (store_both r e) !! nsid h = Some h)
      by (cbn; by rewrite lookup_insert_ne).
    destruct (Hn' _ _ Hk) as [_ Hback]. cbn in Hback.
    rewrite Hid, lookup_insert_eq in Hback. congruence.
  - destruct (I1_lookup_nsmap r _ h HI Hh) as [Hid [Hhi _]].
    destruct (decide (id h = id e)) as [|Hne]; [done|].
    assert (Hk : _map (store_both r e) !! id h = Some h)
      by (cbn; by rewrite lookup_insert_ne).
    destruct (Hm' _ _ Hk) as [_ Hback]. cbn in Hback.
    rewrite Hid, lookup_insert_eq in Hback. congruence.
Qed.

Lemma clean_slot_free r e : ~ taken r e -> clean_slot r e.
Proof.
  intros Hfree. split; intros h Hh; exfalso; apply Hfree; [left|right]; by eexists.
Qed.

Lemma I1_unregisterEntryByID s i :
  I1 (registry s) -> I1 (registry (snd (unregisterEntryByID i s))).
Proof.
  intros HI. rewrite unregisterEntryByID_unfold.
  destruct (_map (registry s) !! i) as [entry|] eqn:Hi; [|done].
  destruct (_nsmap (registry s) !! nsid entry) eqn:Hn; [|done]; cbn.
  destruct (I1_lookup_map _ _ _ HI Hi) as [<- Hreg]. by apply I1_erase_both.
Qed.

Lemma I1_unregisterEntryByNSID s n :
  I1 (registry s) -> I1 (registry (snd (unregisterEntryByNSID n s))).
Proof.
  intros HI. rewrite unregisterEntryByNSID_unfold.
  destruct (_nsmap (registry s) !! n) as [entry|] eqn:Hn; [|done].
  destruct (_map (registry s) !! id entry) eqn:Hi; [|done]; cbn.
  destruct (I1_lookup_nsmap _ _ _ HI Hn) as [<- Hreg]. by apply I1_erase_both.
Qed.

Lemma I1_unregisterEntry s entry :
  I1 (registry s) -> I1 (registry (snd (unregisterEntry entry s))).
Proof.
  intros HI. destruct entry as [e|]; [|done].
  rewrite unregisterEntry_unfold. case_decide; [|done]. by apply I1_erase_both.
Qed.

Lemma I1_registerEntry_no_replace s entry :
  I1 (registry s) -> I1 (registry (snd (registerEntry entry false s))).
Proof.
  intros HI. destruct entry as [e|]; [|done].
  rewrite registerEntry_unfold. case_decide as Htaken; [done|]; cbn.
  apply I1_store_both, clean_slot_free; [done|]. intros Ht. by apply Htaken.
Qed.

Lemma registerEntry_replace_registry s e :
  registry (snd (registerEntry (Some e) true s)) = store_both (registry s) e.
Proof.
  rewrite registerEntry_unfold. rewrite decide_False; [done|]. by intros [? ?].
Qed.

Lemma I1_registerIfAbsent s n f :
  I1 (registry s) ->
  (forall e, _nsmap (registry s) !! n = None ->
             factory_result f (registry s) = Returns (Some e) ->
             clean_slot (registry s) e) ->
  I1 (registry (snd (registerIfAbsent n f s))).
Proof.
  intros HI Hclean. rewrite registerIfAbsent_unfold.
  destruct (_nsmap (registry s) !! n) eqn:Hn; [done|].
  destruct (factory_result f (registry s)) as [[e|]| |] eqn:Hf; try done; cbn.
  apply I1_store_both; [done|]. by apply Hclean.
Qed.

(** ** Removal by key *)

(** C3 (amended).  All-or-nothing removal.  [unregisterEntryByID] and
    [unregisterEntryByNSID] always return.  When the key is found and the
    key derived from the entry found is found in the other map, the call
    returns [true] and has erased exactly these two index entries, the one
    under the given key and the one under the derived key, whatever entry
    the latter holds; in every other case it returns [false] and both maps
    are what they were.  In a state that satisfies I1 the two entries
    erased are those of one entry, and the state afterwards satisfies I1
    again: no entry is findable by one key but not the other. *)
Theorem unregister_by_key_all_or_nothing s :
  (forall i, exists (b : bool) s',
      unregisterEntryByID i s = (Returns b, s') /\
      match _map (registry s) !! i with
      | Some entry =>
          match _nsmap (registry s) !! nsid entry with
          | Some _ =>
              b = true /\ registry s' = erase_both (registry s) i (nsid entry) /\
              _map (registry s') !! i = None /\
              _nsmap (registry s') !! nsid entry = None
          | None => b = false /\ registry s' = registry s
          end
      | None => b = false /\ registry s' = registry s
      end) /\
  (forall n, exists (b : bool) s',
      unregisterEntryByNSID n s = (Returns b, s') /\
      match _nsmap (registry s) !! n with
      | Some entry =>
          match _map (registry s) !! id entry with
          | Some _ =>
              b = true /\ registry s' = erase_both (registry s) (id entry) n /\
              _map (registry s') !! id entry = None /\
              _nsmap (registry s') !! n = None
          | None => b = false /\ registry s' = registry s
          end
      | None => b = false /\ registry s' = registry s
      end) /\
  (I1 (registry s) ->
   (forall i, I1 (registry (snd (unregisterEntryByID i s)))) /\
   (forall n, I1 (registry (snd (unregisterEntryByNSID n s))))).
Proof.
  split; [|split].
  - intros i. rewrite unregisterEntryByID_unfold.
    destruct (_map (registry s) !! i) as [entry|]; [|by eauto].
    destruct (_nsmap (registry s) !! nsid entry); [|by eauto].
    do 2 eexists. split; [done|]. cbn. by rewrite !lookup_delete_eq.
  - intros n. rewrite unregisterEntryByNSID_unfold.
    destruct (_nsmap (registry s) !! n) as [entry|]; [|by eauto].
    destruct (_map (registry s) !! id entry); [|by eauto].
    do 2 eexists. split; [done|]. cbn. by rewrite !lookup_delete_eq.
  - intros HI. split; intros; [by apply I1_unregisterEntryByID|by apply I1_unregisterEntryByNSID].
Qed.

(** ** Removal by pointer *)

(** C4.  Identity-checked removal.  [unregisterEntry(E)] returns [true]
    exactly when both of [E]'s keys are present and the pointer stored
    under each of them is [E] itself; it has then erased the entries at
    [E]'s internal ID and namespace ID from both maps.  Otherwise (a key is
    missing, or a stored pointer is another object) it returns [false] and
    both maps are what they were. *)
Theorem unregisterEntry_identity_checked s e :
  exists (b : bool) s',
    unregisterEntry (Some e) s = (Returns b, s') /\
    (b = true <->
       _map (registry s) !! id e = Some e /\ _nsmap (registry s) !! nsid e = Some e) /\
    (b = true ->
       registry s' = erase_both (registry s) (id e) (nsid e) /\
       _map (registry s') !! id e = None /\ _nsmap (registry s') !! nsid e = None) /\
    (b = false -> registry s' = registry s).
Proof.
  rewrite unregisterEntry_unfold. case_decide as Hreg.
  - do 2 eexists. split; [done|]. split; [done|]. split; [|done].
    intros _. cbn. by rewrite !lookup_delete_eq.
  - do 2 eexists. split; [done|]. split; [|done]. split; [done|].
    intros Hreg'. by destruct Hreg.
Qed.

(** ** Insertion *)

(** C5.  Insert collision rejection.  [registerEntry(E2, false)] returns
    [false] and leaves both maps as they were whenever an entry is stored
    under [E2]'s internal ID or under [E2]'s namespace ID; when neither key
    is taken it stores [E2] in both maps and returns [true]. *)
Theorem registerEntry_collision_rejected s e :
  (taken (registry s) e ->
     fst (registerEntry (Some e) false s) = Returns false /\
     registry (snd (registerEntry (Some e) false s)) = registry s) /\
  (~ taken (registry s) e ->
     fst (registerEntry (Some e) false s) = Returns true /\
     registry (snd (registerEntry (Some e) false s)) = store_both (registry s) e).
Proof.
  rewrite registerEntry_unfold. split; intros Ht.
  - by rewrite decide_True.
  - rewrite decide_False; [done|]. by intros [_ ?].
Qed.

(** ** Index consistency *)

(** C1 (amended).  From a state that satisfies I1, these calls lead to a
    state that satisfies I1 again: [registerEntry] without replacement,
    [unregisterEntryByID], [unregisterEntryByNSID] and [unregisterEntry],
    always; [registerEntry] with replacement, and [registerIfAbsent] when it
    stores what its factory returned, exactly when no registered entry
    shares only one of its two keys with the entry stored;
    [registerIfAbsent] in its other cases (key present, factory throws),
    because it stores nothing. *)
Theorem index_consistency_preserved s :
  I1 (registry s) ->
  (forall entry, I1 (registry (snd (registerEntry entry false s)))) /\
  (forall e, clean_slot (registry s) e <->
             I1 (registry (snd (registerEntry (Some e) true s)))) /\
  (forall n f,
      (forall e, _nsmap (registry s) !! n = None ->
                 factory_result f (registry s) = Returns (Some e) ->
                 clean_slot (registry s) e) ->
      I1 (registry (snd (registerIfAbsent n f s)))) /\
  (forall n f e,
      _nsmap (registry s) !! n = None ->
      factory_result f (registry s) = Returns (Some e) ->
      I1 (registry (snd (registerIfAbsent n f s))) ->
      clean_slot (registry s) e) /\
  (forall i, I1 (registry (snd (unregisterEntryByID i s)))) /\
  (forall n, I1 (registry (snd (unregisterEntryByNSID n s)))) /\
  (forall entry, I1 (registry (snd (unregisterEntry entry s)))).
Proof.
  intros HI. split_and!.
  - intros entry. by apply I1_registerEntry_no_replace.
  - intros e. rewrite registerEntry_replace_registry. split.
    + by apply I1_store_both.
    + by apply I1_store_both_inv.
  - intros n f Hc. by apply I1_registerIfAbsent.
  - intros n f e Hn Hf. rewrite registerIfAbsent_unfold, Hn, Hf; cbn.
    by apply I1_store_both_inv.
  - intros i. by apply I1_unregisterEntryByID.
  - intros n. by apply I1_unregisterEntryByNSID.
  - intros entry. by apply I1_unregisterEntry.
Qed.

(** ** Lookups after an insertion *)

Lemma registered_store_both r e e' :
  registered r e ->
  e' = e \/ (id e' <> id e /\ nsid e' <> nsid e) ->
  registered (store_both r e') e.
Proof.
  intros [Hi Hn] [->|[Hne Hne']]; split; cbn.
  - apply lookup_insert_eq.
  - apply lookup_insert_eq.
  - by rewrite lookup_insert_ne.
  - by rewrite lookup_insert_ne.
Qed.

Lemma registered_erase_both r e i n :
  registered r e -> i <> id e -> n <> nsid e -> registered (erase_both r i n) e.
Proof.
  intros [Hi Hn] Hne Hne'. split; cbn; by rewrite lookup_delete_ne.
Qed.

Lemma registered_after_registerEntry s e (replace : bool) s1 :
  registerEntry (Some e) replace s = (Returns true, s1) -> registered (registry s1) e.
Proof.
  rewrite registerEntry_unfold. case_decide; [done|]. intros [= <-].
  split; cbn; apply lookup_insert_eq.
Qed.

(** A call that does not disturb a registered entry leaves it registered. *)
Lemma registered_run_call e c s :
  registered (registry s) e -> ~ disturbs e c s -> registered (registry (run_call c s)) e.
Proof.
  intros Hreg Hnd.
  destruct c as [n f|entry replace|i|n|entry|i|i]; unfold run_call, disturbs in *.
  - rewrite registerIfAbsent_unfold.
    destruct (_nsmap (registry s) !! n) eqn:Hn; [done|].
    destruct (factory_result f (registry s)) as [[e'|]| |] eqn:Hf; try done; cbn.
    apply registered_store_both; [done|].
    destruct (decide (e' = e)) as [|Hne]; [by left|right].
    split; intros Heq; apply Hnd; (split; [done|]); exists e'; auto.
  - destruct entry as [e'|]; [|by destruct replace].
    rewrite registerEntry_unfold. case_decide as Hrej; [done|]; cbn.
    apply registered_store_both; [done|].
    destruct (decide (e' = e)) as [|Hne]; [by left|right].
    destruct replace.
    + split; intros Heq; apply Hnd; (split; [done|]); exists e'; auto.
    + destruct Hreg as [Hi Hn].
      split; intros Heq; apply Hrej; (split; [done|]); [left|right];
        rewrite Heq; by eexists.
  - rewrite unregisterEntryByID_unfold.
    destruct (_map (registry s) !! i) as [e'|] eqn:Hi; [|done].
    destruct (_nsmap (registry s) !! nsid e') eqn:Hn; [|done]; cbn.
    apply registered_erase_both; [done| |]; intros Heq; apply Hnd;
      exists e'; (split; [done|]); (split; [by eexists|]); auto.
  - rewrite unregisterEntryByNSID_unfold.
    destruct (_nsmap (registry s) !! n) as [e'|] eqn:Hn; [|done].
    destruct (_map (registry s) !! id e') eqn:Hi; [|done]; cbn.
    apply registered_erase_both; [done| |]; intros Heq; apply Hnd;
      exists e'; (split; [done|]); (split; [by eexists|]); auto.
  - destruct entry as [e'|]; [|done].
    rewrite unregisterEntry_unfold. case_decide as Hreg'; [|done]; cbn.
    destruct Hreg as [Hi Hn], Hreg' as [Hi' Hn'].
    apply registered_erase_both; [done| |]; intros Heq; apply Hnd; congruence.
  - by rewrite lookupEntryByID_unfold; destruct (_registeringWithLockHeld s).
  - by rewrite lookupEntryByNSID_unfold; destruct (_registeringWithLockHeld s).
Qed.

Lemma registered_run_calls e cs s :
  registered (registry s) e -> undisturbed e cs s -> registered (registry (run_calls cs s)) e.
Proof.
  revert s. induction cs as [|c cs IH]; intros s Hreg Hcs; [done|].
  destruct Hcs as [Hc Hcs]. cbn. apply IH; [|done]. by apply registered_run_call.
Qed.

Lemma call_lookupEntryByNSID_roundtrip s n :
  ID_to_NSID (NSID_to_ID n) = n ->
  fst (call_lookupEntryByNSID n s) = Returns (optional (_nsmap (registry s) !! n)).
Proof.
  intros Hrt. unfold call_lookupEntryByNSID. by rewrite lookupEntryByNSID_unfold, Hrt.
Qed.

(** C6 (amended).  After a successful [registerEntry] of [E], with internal
    ID [i] and namespace ID [n], [lookupEntryByID(i)] returns [E], and so
    does [lookupEntryByNSID] for an argument that reaches [_nsmap.find] as
    [n]; this stays so across every sequence of calls none of which erases
    an index entry under [i] or [n] or stores another entry under [i] or
    [n]. *)
Theorem dual_index_agreement s e (replace : bool) s1 cs :
  registerEntry (Some e) replace s = (Returns true, s1) ->
  undisturbed e cs s1 ->
  fst (lookupEntryByID (id e) (run_calls cs s1)) = Returns (Some (Some e)) /\
  (forall i, ID_to_NSID i = nsid e ->
     fst (lookupEntryByNSID i (run_calls cs s1)) = Returns (Some (Some e))) /\
  (ID_to_NSID (NSID_to_ID (nsid e)) = nsid e ->
     fst (call_lookupEntryByNSID (nsid e) (run_calls cs s1)) = Returns (Some (Some e))).
Proof.
  intros Hins Hcs.
  destruct (registered_run_calls e cs s1) as [Hi Hn];
    [by eapply registered_after_registerEntry|done|].
  split_and!.
  - by rewrite lookupEntryByID_unfold, Hi.
  - intros i Hi'. by rewrite lookupEntryByNSID_unfold, Hi', Hn.
  - intros Hrt. by rewrite call_lookupEntryByNSID_roundtrip, Hn.
Qed.

(** ** The factory call of [registerIfAbsent] *)

Lemma factory_calls_after_exclusive s r (b : bool) evs :
  factory_calls (after_exclusive s r b evs) =
    factory_calls s + length (filter (fun ev => ev = FactoryCall) evs).
Proof.
  unfold factory_calls, after_exclusive; cbn.
  rewrite filter_app, length_app. f_equal.
  rewrite filter_cons_False by done.
  rewrite filter_app, length_app, (filter_cons_False _ UnlockExclusive) by done.
  cbn. lia.
Qed.

Lemma count_one_factory_call :
  length (filter (fun ev => ev = FactoryCall) [FactoryCall]) = 1.
Proof. reflexivity. Qed.

Lemma factory_calls_null_deref s (b : bool) :
  factory_calls (mkState (registry s) b (log s ++ [LockExclusive; FactoryCall])) =
    S (factory_calls s).
Proof.
  unfold factory_calls; cbn. rewrite filter_app, length_app.
  change (length (filter (fun ev => ev = FactoryCall) [LockExclusive; FactoryCall])) with 1.
  lia.
Qed.

Lemma shared_acquisitions_lookupEntryByID s i :
  shared_acquisitions (snd (lookupEntryByID i s)) =
    if _registeringWithLockHeld s then shared_acquisitions s
    else S (shared_acquisitions s).
Proof.
  rewrite lookupEntryByID_unfold; cbn. destruct (_registeringWithLockHeld s); [done|].
  unfold shared_acquisitions; cbn.
  rewrite filter_app, length_app, filter_cons_True, filter_cons_False by done.
  cbn. lia.
Qed.

Lemma shared_acquisitions_lookupEntryByNSID s i :
  shared_acquisitions (snd (lookupEntryByNSID i s)) =
    if _registeringWithLockHeld s then shared_acquisitions s
    else S (shared_acquisitions s).
Proof.
  rewrite lookupEntryByNSID_unfold; cbn. destruct (_registeringWithLockHeld s); [done|].
  unfold shared_acquisitions; cbn.
  rewrite filter_app, length_app, filter_cons_True, filter_cons_False by done.
  cbn. lia.
Qed.

(** When [registerIfAbsent] returns, the flag is down again (it was down
    before the call), and the thread's next lookup takes the lock. *)
Lemma registerIfAbsent_flag_after_return s n f entry s' :
  _registeringWithLockHeld s = false ->
  registerIfAbsent n f s = (Returns entry, s') ->
  _registeringWithLockHeld s' = false /\
  (forall i, shared_acquisitions (snd (lookupEntryByID i s')) = S (shared_acquisitions s')) /\
  (forall i, shared_acquisitions (snd (lookupEntryByNSID i s')) = S (shared_acquisitions s')).
Proof.
  intros Hdown. rewrite registerIfAbsent_unfold.
  assert (Hgoal : _registeringWithLockHeld s' = false ->
    _registeringWithLockHeld s' = false /\
    (forall i, shared_acquisitions (snd (lookupEntryByID i s')) = S (shared_acquisitions s')) /\
    (forall i, shared_acquisitions (snd (lookupEntryByNSID i s')) = S (shared_acquisitions s'))).
  { intros Hs'. split_and!; [done|intros i..].
    - by rewrite shared_acquisitions_lookupEntryByID, Hs'.
    - by rewrite shared_acquisitions_lookupEntryByNSID, Hs'. }
  destruct (_nsmap (registry s) !! n).
  { intros [= _ <-]. by apply Hgoal. }
  destruct (factory_result f (registry s)) as [[e|]| |]; try done.
  intros [= _ <-]. by apply Hgoal.
Qed.

(** C8, at the failing input.  When the factory throws, [registerIfAbsent]
    leaves by that exception with the exclusive lock released and the
    thread's flag still raised, and the thread's later lookups do not take
    the lock. *)
Theorem registerIfAbsent_flag_after_throw s n f :
  _registeringWithLockHeld s = false ->
  _nsmap (registry s) !! n = None ->
  factory_result f (registry s) = Throws ->
  exists s',
    registerIfAbsent n f s = (Throws, s') /\
    log s' = log s ++ [LockExclusive; FactoryCall; UnlockExclusive] /\
    _registeringWithLockHeld s' = true /\
    (forall i, shared_acquisitions (snd (lookupEntryByID i s')) = shared_acquisitions s') /\
    (forall i, shared_acquisitions (snd (lookupEntryByNSID i s')) = shared_acquisitions s').
Proof.
  intros Hdown Hn Hf. rewrite registerIfAbsent_unfold, Hn, Hf.
  eexists. split; [done|]. split_and!; [done|done|intros i..].
  - by rewrite shared_acquisitions_lookupEntryByID.
  - by rewrite shared_acquisitions_lookupEntryByNSID.
Qed.

(** C9.  Factory and key disagree.  When [registerIfAbsent(nsid, factory)]
    does not find [nsid] and the factory returns an entry whose own
    namespace ID is not [nsid], the entry is stored under its own internal
    ID and its own namespace ID, [nsid] is still absent from [_nsmap], and
    the next [registerIfAbsent] on [nsid] calls its factory again. *)
Theorem registerIfAbsent_key_mismatch s n f e :
  _nsmap (registry s) !! n = None ->
  factory_result f (registry s) = Returns (Some e) ->
  nsid e <> n ->
  exists s1,
    registerIfAbsent n f s = (Returns (Some e), s1) /\
    factory_calls s1 = S (factory_calls s) /\
    registry s1 = store_both (registry s) e /\
    _map (registry s1) !! id e = Some e /\
    _nsmap (registry s1) !! nsid e = Some e /\
    _nsmap (registry s1) !! n = None /\
    forall f', factory_calls (snd (registerIfAbsent n f' s1)) = S (factory_calls s1).
Proof.
  intros Hn Hf Hne. rewrite registerIfAbsent_unfold, Hn, Hf.
  eexists. split; [done|].
  assert (Hn1 : _nsmap (store_both (registry s) e) !! n = None)
    by (cbn; by rewrite lookup_insert_ne).
  split_and!.
  - rewrite factory_calls_after_exclusive, count_one_factory_call. lia.
  - done.
  - cbn. apply lookup_insert_eq.
  - cbn. apply lookup_insert_eq.
  - done.
  - intros f'. rewrite registerIfAbsent_unfold.
    change (registry (after_exclusive s (store_both (registry s) e) false [FactoryCall]))
      with (store_both (registry s) e).
    rewrite Hn1.
    destruct (factory_result f' (store_both (registry s) e)) as [[e'|]| |] eqn:Hf';
      cbn [snd].
    + rewrite !factory_calls_after_exclusive, count_one_factory_call. lia.
    + apply (factory_calls_null_deref
               (after_exclusive s (store_both (registry s) e) false [FactoryCall])).
    + rewrite !factory_calls_after_exclusive, count_one_factory_call. lia.
    + by destruct (factory_result_defined f' (store_both (registry s) e)).
Qed.

(** C10.  Null factory result.  [registerIfAbsent] dereferences what the
    factory returned without a check: the call runs into the null
    dereference exactly when the key is absent and the factory returns a
    null pointer.  When the factory returns a non-null pointer, the
    dereference succeeds, and whatever entry it points to is stored under
    its own two keys and returned: nothing else about it is checked. *)
Theorem registerIfAbsent_null_deref s n f :
  (fst (registerIfAbsent n f s) = NullDeref <->
     _nsmap (registry s) !! n = None /\ factory_result f (registry s) = Returns None) /\
  (forall e,
     _nsmap (registry s) !! n = None ->
     factory_result f (registry s) = Returns (Some e) ->
     fst (registerIfAbsent n f s) = Returns (Some e) /\
     registry (snd (registerIfAbsent n f s)) = store_both (registry s) e).
Proof.
  rewrite registerIfAbsent_unfold. split.
  - destruct (_nsmap (registry s) !! n); [by split; [|intros [? _]]|].
    pose proof (factory_result_defined f (registry s)) as Hdef.
    destruct (factory_result f (registry s)) as [[e|]| |]; cbn;
      (split; [intros ?|intros [_ ?]]); done.
  - intros e -> ->. done.
Qed.

End registry_facts.

(** * Facts about racing threads *)

Section race_facts.

Context {ID NSID EntryRef : Type}.
Context `{EntryClass ID NSID EntryRef}.

Implicit Types (σ : system ID NSID EntryRef) (th : thread ID NSID EntryRef).
Implicit Types (K : NSID) (ph : phase EntryRef) (t h : nat) (e : EntryRef).

Lemma run_app (s1 s2 : list nat) σ : run (s1 ++ s2) σ = run s2 (run s1 σ).
Proof. revert σ. induction s1 as [|t s1 IH]; intros σ; [done|]. cbn. apply IH. Qed.

(** A thread that is not [t] and is consistent with a lock that is free or
    held by [t] stands outside the critical section, and stays consistent
    when [t] moves. *)
Lemma thread_ok_other K (lock lock' : option nat) ph ph' t t' th :
  t' <> t ->
  lock = None \/ lock = Some t ->
  lock' = None \/ lock' = Some t ->
  (forall e, ph = Created e -> ph' = Created e) ->
  thread_ok K lock ph t' th -> thread_ok K lock' ph' t' th.
Proof.
  intros Hne Hlock Hlock' Hph (Hk & Hf & Hpc). split_and!; [done|done|].
  assert (Hfree : lock' <> Some t') by (intros ->; destruct Hlock'; congruence).
  assert (Hout : lock <> Some t') by (intros ->; destruct Hlock; congruence).
  destruct (t_pc th); try done.
  - by destruct Hpc.
  - by destruct Hpc.
  - by destruct Hpc.
  - by destruct Hpc.
  - by destruct Hpc.
  - destruct Hpc as (_ & e & -> & Hcreated). split; [done|]. exists e. auto.
Qed.

(** The invariant survives replacing thread [t] by its next state. *)
Lemma race_invariant_update K σ ph ph' t th th' r' (lock' : option nat) (n' : nat) :
  (forall t' th', threads σ !! t' = Some th' -> thread_ok K (_rwlock σ) ph t' th') ->
  (forall h, _rwlock σ = Some h -> is_Some (threads σ !! h)) ->
  threads σ !! t = Some th ->
  _rwlock σ = None \/ _rwlock σ = Some t ->
  lock' = None \/ lock' = Some t ->
  (forall e, ph = Created e -> ph' = Created e) ->
  thread_ok K lock' ph' t th' ->
  phase_ok K ph' (mkSystem r' lock' (<[t := th']> (threads σ)) n') ->
  race_invariant K (mkSystem r' lock' (<[t := th']> (threads σ)) n').
Proof.
  intros Hths Hheld Hth Hlock Hlock' Hph Hok Hphase.
  pose proof (lookup_lt_Some _ _ _ Hth) as Hlt.
  exists ph'. split_and!; [done| |]; cbn.
  - intros t' th'' Hlook. destruct (decide (t' = t)) as [->|Hne].
    + rewrite list_lookup_insert_eq in Hlook by done. by injection Hlook as <-.
    + rewrite list_lookup_insert_ne in Hlook by done.
      apply (thread_ok_other K (_rwlock σ) lock' ph ph' t t' th''); auto.
  - intros h Hh. apply lookup_lt_is_Some. rewrite length_insert.
    destruct Hlock' as [->| ->]; [done|]. by injection Hh as <-.
Qed.

Lemma race_invariant_step K σ σ' t :
  race_invariant K σ -> step t σ = Some σ' -> race_invariant K σ'.
Proof.
  intros (ph & Hphase & Hths & Hheld) Hstep. unfold step in Hstep.
  destruct (threads σ !! t) as [th|] eqn:Hth; [|done].
  destruct (Hths t th Hth) as (Hk & Hf & Hpc).
  destruct th as [n f p b]; cbn in *. subst n.
  destruct p as [| |g|entry|entry|result| |result| |]; try done.
  - (* AtEntry: the lock is free, so no factory is running *)
    destruct (_rwlock σ) eqn:Hlock; [done|]. injection Hstep as <-.
    assert (Hph : ph <> Creating).
    { intros ->. destruct Hphase as (_ & _ & [? ?]). congruence. }
    apply (race_invariant_update K σ ph ph t (mkThread K f AtEntry b));
      rewrite ?Hlock; auto.
    + by repeat split.
    + by destruct ph.
  - (* AtFind *)
    destruct Hpc as [Hlock Hph].
    destruct ph as [| |e]; [|done|]; cbn in Hphase;
      destruct Hphase as [Hcalls Hn]; rewrite Hn in Hstep; injection Hstep as <-.
    + apply (race_invariant_update K σ Fresh Creating t (mkThread K f AtFind b)); auto.
      * done.
      * by repeat split.
      * cbn. rewrite Hcalls, Hlock. by eauto.
    + apply (race_invariant_update K σ (Created e) (Created e) t (mkThread K f AtFind b));
        auto.
      * repeat split; eauto.
      * by split.
  - (* InFactory *)
    destruct Hpc as (Hlock & -> & Hg & ->).
    destruct g as [[e|]| |i k|i k]; try done; injection Hstep as <-.
    + apply (race_invariant_update K σ Creating Creating t
               (mkThread K f (InFactory (FReturn (Some e))) true)); auto.
      repeat split; eauto.
    + apply (race_invariant_update K σ Creating Creating t
               (mkThread K f (InFactory (FLookupEntryByID i k)) true)); auto.
      repeat split; eauto; apply Hg.
    + apply (race_invariant_update K σ Creating Creating t
               (mkThread K f (InFactory (FLookupEntryByNSID i k)) true)); auto.
      repeat split; eauto; apply Hg.
  - (* AtStoreMap *)
    destruct Hpc as (Hlock & -> & e & -> & He). injection Hstep as <-.
    apply (race_invariant_update K σ Creating Creating t
             (mkThread K f (AtStoreMap (Some e)) b)); auto.
    repeat split; eauto.
  - (* AtStoreNsmap: the key gets its entry *)
    destruct Hpc as (Hlock & -> & e & -> & He). injection Hstep as <-.
    apply (race_invariant_update K σ Creating (Created e) t
             (mkThread K f (AtStoreNsmap (Some e)) b)); auto.
    + done.
    + repeat split; eauto.
    + cbn in *. destruct Hphase as (Hcalls & _). split; [done|].
      rewrite He. apply lookup_insert_eq.
  - (* AtReturn *)
    destruct Hpc as (Hlock & e & -> & ->). injection Hstep as <-.
    apply (race_invariant_update K σ (Created e) (Created e) t
             (mkThread K f (AtReturn (Some e)) b)); auto.
    repeat split; eauto.
Qed.

Lemma race_invariant_run K σ (schedule : list nat) :
  race_invariant K σ -> race_invariant K (run schedule σ).
Proof.
  revert σ. induction schedule as [|t schedule IH]; intros σ Hinv; [done|].
  cbn. apply IH. destruct (step t σ) as [σ'|] eqn:Hstep; [|done].
  by eapply race_invariant_step.
Qed.

Lemma race_invariant_start r K (factories : list (Factory ID EntryRef)) :
  _nsmap r !! K = None ->
  Forall (creates_for K) factories ->
  race_invariant K (race r K factories).
Proof.
  intros Hn Hfs. exists Fresh. split_and!; [done| |done].
  intros t th Hth. cbn in Hth. apply list_lookup_fmap_Some in Hth as (f & -> & Hf).
  repeat split; cbn; [|done].
  rewrite Forall_lookup in Hfs. by eapply Hfs.
Qed.

(** ** One thread on its own

    A thread that is scheduled alone goes through the steps of the method
    and ends where the method, run as one function, ends. *)

Lemma thread_after_step σ t th th1 r1 (lock1 : option nat) (n1 : nat) :
  threads σ !! t = Some th ->
  threads (mkSystem r1 lock1 (<[t := th1]> (threads σ)) n1) !! t = Some th1.
Proof. intros Hth. cbn. apply list_lookup_insert_eq. by eapply lookup_lt_Some. Qed.

Lemma solo_refl t σ : solo t σ σ.
Proof. by exists 0. Qed.

Lemma solo_step t σ σ1 σ' : step t σ = Some σ1 -> solo t σ1 σ' -> solo t σ σ'.
Proof. intros Hstep [n Hrun]. exists (S n). cbn. by rewrite Hstep. Qed.

Lemma set_pc_flag_set_pc th p p' (b : bool) :
  set_pc_flag (set_pc th p) p' b = set_pc_flag th p' b.
Proof. done. Qed.

Lemma set_pc_set_pc th p p' : set_pc (set_pc th p) p' = set_pc th p'.
Proof. done. Qed.

(** Inside the factory, with the flag raised: the thread comes to the store
    with the pointer the factory returns, or to the unwinding. *)
Lemma solo_factory t g :
  forall σ th,
    threads σ !! t = Some th -> t_pc th = InFactory g ->
    t_registeringWithLockHeld th = true ->
    solo t σ
      (mkSystem (sys_registry σ) (_rwlock σ)
         (<[t := match factory_result g (sys_registry σ) with
                 | Returns entry => set_pc_flag th (AtStoreMap entry) false
                 | _ => set_pc th AtUnwind
                 end]> (threads σ))
         (sys_factory_calls σ)).
Proof.
  induction g as [entry| |i k IH|i k IH]; intros σ th Hth Hpc Hflag.
  - eapply solo_step; [|apply solo_refl]. unfold step. by rewrite Hth, Hpc.
  - eapply solo_step; [|apply solo_refl]. unfold step. by rewrite Hth, Hpc.
  - eapply solo_step.
    { unfold step. rewrite Hth, Hpc, Hflag. reflexivity. }
    rewrite factory_result_FLookupEntryByID.
    set (th1 := set_pc th (InFactory (k (optional (_map (sys_registry σ) !! i))))).
    set (σ1 := mkSystem (sys_registry σ) (_rwlock σ) (<[t := th1]> (threads σ))
                 (sys_factory_calls σ)).
    pose proof (IH _ σ1 th1 (thread_after_step σ t th th1 _ _ _ Hth) eq_refl Hflag) as Hsolo.
    cbn in Hsolo. rewrite list_insert_insert_eq in Hsolo. exact Hsolo.
  - eapply solo_step.
    { unfold step. rewrite Hth, Hpc, Hflag. reflexivity. }
    rewrite factory_result_FLookupEntryByNSID.
    set (th1 := set_pc th
                  (InFactory (k (optional (_nsmap (sys_registry σ) !! ID_to_NSID i))))).
    set (σ1 := mkSystem (sys_registry σ) (_rwlock σ) (<[t := th1]> (threads σ))
                 (sys_factory_calls σ)).
    pose proof (IH _ σ1 th1 (thread_after_step σ t th th1 _ _ _ Hth) eq_refl Hflag) as Hsolo.
    cbn in Hsolo. rewrite list_insert_insert_eq in Hsolo. exact Hsolo.
Qed.

Lemma solo_trans t σ σ1 σ2 : solo t σ σ1 -> solo t σ1 σ2 -> solo t σ σ2.
Proof.
  intros [n Hn] [m Hm]. exists (n + m). by rewrite replicate_add, run_app, Hn.
Qed.

Ltac solo_next Hlt :=
  eapply solo_step;
  [ unfold step; cbn; rewrite ?list_lookup_insert_eq by exact Hlt; cbn;
    rewrite ?list_insert_insert_eq; reflexivity | ].

(** From the head of the method to its end: the thread's steps compute what
    [registerIfAbsent] computes. *)
Lemma solo_registerIfAbsent σ t th :
  threads σ !! t = Some th -> t_pc th = AtEntry -> _rwlock σ = None ->
  let s := mkState (sys_registry σ) (t_registeringWithLockHeld th) [] in
  let o := fst (registerIfAbsent (t_nsid th) (t_entryFactory th) s) in
  let s' := snd (registerIfAbsent (t_nsid th) (t_entryFactory th) s) in
  exists σ' th',
    solo t σ σ' /\
    threads σ' = <[t := th']> (threads σ) /\
    t_pc th' = pc_of_outcome o /\
    sys_registry σ' = registry s' /\
    t_registeringWithLockHeld th' = _registeringWithLockHeld s' /\
    sys_factory_calls σ' = sys_factory_calls σ + factory_calls s' /\
    _rwlock σ' = match o with NullDeref => Some t | _ => None end.
Proof.
  intros Hth Hpc Hlock s o s'. subst o s'. rewrite registerIfAbsent_unfold. subst s.
  pose proof (lookup_lt_Some _ _ _ Hth) as Hlt.
  destruct σ as [r lock ths calls]; destruct th as [K f p b]; cbn in *. subst p lock.
  assert (Hfirst : step t (mkSystem r None ths calls) =
            Some (mkSystem r (Some t) (<[t := mkThread K f AtFind b]> ths) calls)).
  { unfold step; cbn. by rewrite Hth. }
  destruct (_nsmap r !! K) as [second|] eqn:Hn.
  { do 2 eexists. split.
    { eapply solo_step; [exact Hfirst|].
      eapply solo_step.
      { unfold step; cbn. rewrite list_lookup_insert_eq by exact Hlt; cbn.
        rewrite Hn, list_insert_insert_eq. reflexivity. }
      solo_next Hlt. apply solo_refl. }
    cbn. split_and!; try done; unfold factory_calls; cbn; lia. }
  assert (Hfactory : solo t (mkSystem r None ths calls)
            (mkSystem r (Some t)
               (<[t := match factory_result f r with
                       | Returns entry => mkThread K f (AtStoreMap entry) false
                       | _ => mkThread K f AtUnwind true
                       end]> ths) (S calls))).
  { eapply solo_step; [exact Hfirst|].
    eapply solo_step.
    { unfold step; cbn. rewrite list_lookup_insert_eq by exact Hlt; cbn.
      rewrite Hn, list_insert_insert_eq. reflexivity. }
    pose proof (solo_factory t f
                  (mkSystem r (Some t) (<[t := mkThread K f (InFactory f) true]> ths) (S calls))
                  (mkThread K f (InFactory f) true)) as Hsolo.
    cbn in Hsolo. rewrite list_insert_insert_eq in Hsolo.
    destruct (factory_result f r) as [entry| |]; apply Hsolo; try done;
      by apply list_lookup_insert_eq. }
  pose proof (factory_result_defined f r) as Hdef.
  destruct (factory_result f r) as [[e|]| |]; [| | |done].
  - do 2 eexists. split.
    { eapply solo_trans; [exact Hfactory|].
      solo_next Hlt. solo_next Hlt. solo_next Hlt. apply solo_refl. }
    cbn -[factory_calls]. split_and!; try done.
    change (factory_calls _) with 1. lia.
  - do 2 eexists. split.
    { eapply solo_trans; [exact Hfactory|]. solo_next Hlt. apply solo_refl. }
    cbn -[factory_calls]. split_and!; try done.
    change (factory_calls _) with 1. lia.
  - do 2 eexists. split.
    { eapply solo_trans; [exact Hfactory|]. solo_next Hlt. apply solo_refl. }
    cbn -[factory_calls]. split_and!; try done.
    change (factory_calls _) with 1. lia.
Qed.

(** ** What the invariant says about the outcome *)

Lemma race_invariant_calls K σ : race_invariant K σ -> sys_factory_calls σ <= 1.
Proof. intros (ph & Hphase & _). destruct ph; cbn in Hphase; lia. Qed.

Lemma race_invariant_all_returned K σ :
  race_invariant K σ -> threads σ <> [] -> all_returned σ ->
  sys_factory_calls σ = 1 /\
  exists e, all_received e σ /\ _nsmap (sys_registry σ) !! K = Some e.
Proof.
  intros (ph & Hphase & Hths & _) Hne Hall.
  assert (exists th0, threads σ !! 0 = Some th0) as [th0 Hfirst].
  { destruct (threads σ); [done|]. by eexists. }
  unfold all_returned in Hall. rewrite Forall_lookup in Hall.
  destruct (Hall 0 th0 Hfirst) as [result Hr0].
  destruct (Hths 0 th0 Hfirst) as (_ & _ & Hpc0).
  rewrite Hr0 in Hpc0. destruct Hpc0 as (_ & e & -> & ->).
  destruct Hphase as [Hcalls Hn]. split; [done|]. exists e. split; [|done].
  apply Forall_lookup. intros t th Hth.
  destruct (Hths t th Hth) as (_ & _ & Hpc).
  destruct (Hall t th Hth) as [result' Hr]. rewrite Hr in Hpc |- *.
  destruct Hpc as (_ & e' & -> & Heq). by injection Heq as ->.
Qed.

(** ** Every thread gets through *)

(** A step of thread [t] changes no other thread. *)
Lemma step_threads t σ σ1 :
  step t σ = Some σ1 -> exists th1, threads σ1 = <[t := th1]> (threads σ).
Proof.
  unfold step. intros Hstep.
  destruct (threads σ !! t) as [th|] eqn:Hth; [|done].
  destruct (t_pc th) as [| |[[e|]| |i k|i k]|[e|]|[e|]|result| |result| |];
    repeat case_match; simplify_eq; cbn; eauto.
Qed.

Lemma run_length (schedule : list nat) σ :
  length (threads (run schedule σ)) = length (threads σ).
Proof.
  revert σ. induction schedule as [|t schedule IH]; intros σ; [done|].
  cbn. rewrite IH. destruct (step t σ) as [σ1|] eqn:Hstep; [|done]; cbn.
  destruct (step_threads t σ σ1 Hstep) as [th1 ->]. apply length_insert.
Qed.

Lemma finishes_step t σ σ1 : step t σ = Some σ1 -> finishes t σ1 -> finishes t σ.
Proof.
  intros Hstep (n & th' & Hths & Hret & Hlock).
  exists (S n), th'. cbn. rewrite Hstep; cbn. split_and!; [|done|done].
  rewrite Hths. destruct (step_threads t σ σ1 Hstep) as [th1 ->].
  apply list_insert_insert_eq.
Qed.

Lemma finishes_AtReturn K σ t th result :
  race_invariant K σ -> threads σ !! t = Some th -> t_pc th = AtReturn result ->
  finishes t σ.
Proof.
  intros Hinv Hth Hpc. exists 1, (set_pc th (Returned result)).
  cbn. unfold step. rewrite Hth, Hpc. cbn. eauto.
Qed.

Lemma finishes_AtStoreNsmap K σ t th entry :
  race_invariant K σ -> threads σ !! t = Some th -> t_pc th = AtStoreNsmap entry ->
  finishes t σ.
Proof.
  intros Hinv Hth Hpc.
  destruct Hinv as (ph & Hphase & Hths & Hheld).
  destruct (Hths t th Hth) as (_ & _ & Hok). rewrite Hpc in Hok.
  destruct Hok as (_ & _ & e & -> & _).
  assert (Hstep : step t σ =
    Some (mkSystem (mkRegistry (_map (sys_registry σ)) (<[nsid e := e]> (_nsmap (sys_registry σ))))
            (_rwlock σ) (<[t := set_pc th (AtReturn (Some e))]> (threads σ))
            (sys_factory_calls σ))).
  { unfold step. by rewrite Hth, Hpc. }
  eapply finishes_step; [done|].
  eapply (finishes_AtReturn K); [|by eapply thread_after_step|done].
  eapply race_invariant_step; [|done]. by exists ph.
Qed.

Lemma finishes_AtStoreMap K σ t th entry :
  race_invariant K σ -> threads σ !! t = Some th -> t_pc th = AtStoreMap entry ->
  finishes t σ.
Proof.
  intros Hinv Hth Hpc.
  destruct Hinv as (ph & Hphase & Hths & Hheld).
  destruct (Hths t th Hth) as (_ & _ & Hok). rewrite Hpc in Hok.
  destruct Hok as (_ & _ & e & -> & _).
  assert (Hstep : step t σ =
    Some (mkSystem (mkRegistry (<[id e := e]> (_map (sys_registry σ))) (_nsmap (sys_registry σ)))
            (_rwlock σ) (<[t := set_pc th (AtStoreNsmap (Some e))]> (threads σ))
            (sys_factory_calls σ))).
  { unfold step. by rewrite Hth, Hpc. }
  eapply finishes_step; [done|].
  eapply (finishes_AtStoreNsmap K); [|by eapply thread_after_step|done].
  eapply race_invariant_step; [|done]. by exists ph.
Qed.

(** A factory is a well-founded tree: whatever its lookups return, it comes
    to its [return]. *)
Lemma finishes_InFactory K t g :
  forall σ th,
    race_invariant K σ -> threads σ !! t = Some th -> t_pc th = InFactory g ->
    finishes t σ.
Proof.
  induction g as [entry| |i k IH|i k IH]; intros σ th Hinv Hth Hpc;
    pose proof Hinv as (ph & Hphase & Hths & Hheld);
    destruct (Hths t th Hth) as (_ & _ & Hok); rewrite Hpc in Hok;
    destruct Hok as (_ & _ & Hg & Hflag).
  - assert (Hstep : step t σ =
      Some (mkSystem (sys_registry σ) (_rwlock σ)
              (<[t := set_pc_flag th (AtStoreMap entry) false]> (threads σ))
              (sys_factory_calls σ))).
    { unfold step. by rewrite Hth, Hpc. }
    eapply finishes_step; [done|].
    eapply (finishes_AtStoreMap K); [|by eapply thread_after_step|done].
    by eapply race_invariant_step.
  - done.
  - assert (Hstep : step t σ =
      Some (mkSystem (sys_registry σ) (_rwlock σ)
              (<[t := set_pc th (InFactory (k (optional (_map (sys_registry σ) !! i))))]>
                 (threads σ))
              (sys_factory_calls σ))).
    { unfold step. rewrite Hth, Hpc, Hflag. by destruct (_map (sys_registry σ) !! i). }
    eapply finishes_step; [done|].
    eapply IH; [|by eapply thread_after_step|done].
    by eapply race_invariant_step.
  - assert (Hstep : step t σ =
      Some (mkSystem (sys_registry σ) (_rwlock σ)
              (<[t := set_pc th
                        (InFactory (k (optional (_nsmap (sys_registry σ) !! ID_to_NSID i))))]>
                 (threads σ))
              (sys_factory_calls σ))).
    { unfold step. rewrite Hth, Hpc, Hflag.
      by destruct (_nsmap (sys_registry σ) !! ID_to_NSID i). }
    eapply finishes_step; [done|].
    eapply IH; [|by eapply thread_after_step|done].
    by eapply race_invariant_step.
Qed.

Lemma finishes_AtFind K σ t th :
  race_invariant K σ -> threads σ !! t = Some th -> t_pc th = AtFind ->
  finishes t σ.
Proof.
  intros Hinv Hth Hpc.
  destruct (_nsmap (sys_registry σ) !! t_nsid th) as [second|] eqn:Hn.
  - assert (Hstep : step t σ =
      Some (mkSystem (sys_registry σ) (_rwlock σ)
              (<[t := set_pc th (AtReturn (Some second))]> (threads σ))
              (sys_factory_calls σ))).
    { unfold step. by rewrite Hth, Hpc, Hn. }
    eapply finishes_step; [done|].
    eapply (finishes_AtReturn K); [|by eapply thread_after_step|done].
    by eapply race_invariant_step.
  - assert (Hstep : step t σ =
      Some (mkSystem (sys_registry σ) (_rwlock σ)
              (<[t := set_pc_flag th (InFactory (t_entryFactory th)) true]> (threads σ))
              (S (sys_factory_calls σ)))).
    { unfold step. by rewrite Hth, Hpc, Hn. }
    eapply finishes_step; [done|].
    eapply (finishes_InFactory K); [|by eapply thread_after_step|done].
    by eapply race_invariant_step.
Qed.

Lemma finishes_AtEntry K σ t th :
  race_invariant K σ -> threads σ !! t = Some th -> t_pc th = AtEntry ->
  _rwlock σ = None ->
  finishes t σ.
Proof.
  intros Hinv Hth Hpc Hlock.
  assert (Hstep : step t σ =
    Some (mkSystem (sys_registry σ) (Some t) (<[t := set_pc th AtFind]> (threads σ))
            (sys_factory_calls σ))).
  { unfold step. by rewrite Hth, Hpc, Hlock. }
  eapply finishes_step; [done|].
  eapply (finishes_AtFind K); [|by eapply thread_after_step|done].
  by eapply race_invariant_step.
Qed.

(** Whoever holds the lock gets to release it. *)
Lemma finishes_holder K σ h :
  race_invariant K σ -> _rwlock σ = Some h -> finishes h σ.
Proof.
  intros Hinv Hlock. pose proof Hinv as (ph & Hphase & Hths & Hheld).
  destruct (Hheld h Hlock) as [th Hth].
  destruct (Hths h th Hth) as (_ & _ & Hok).
  destruct (t_pc th) as [| |g|entry|entry|result| |result| |] eqn:Hpc; try done.
  - by eapply finishes_AtFind.
  - by eapply finishes_InFactory.
  - by eapply finishes_AtStoreMap.
  - by eapply finishes_AtStoreNsmap.
  - by eapply finishes_AtReturn.
  - by destruct Hok.
Qed.

(** With the lock free, the threads can be taken through the method one
    after the other, in the order of their numbers. *)
Lemma first_threads_return K σ (n : nat) :
  race_invariant K σ -> _rwlock σ = None -> n <= length (threads σ) ->
  exists schedule,
    _rwlock (run schedule σ) = None /\
    length (threads (run schedule σ)) = length (threads σ) /\
    forall t th, t < n -> threads (run schedule σ) !! t = Some th ->
                 exists result, t_pc th = Returned result.
Proof.
  intros Hinv Hlock. induction n as [|n IH]; intros Hn.
  { exists []. split_and!; [done|done|]. intros t th Ht. lia. }
  destruct IH as (schedule & Hfree & Hlen & Hret); [lia|].
  pose proof (race_invariant_run K σ schedule Hinv) as Hinv'.
  set (σ' := run schedule σ) in *.
  destruct (lookup_lt_is_Some_2 (threads σ') n) as [th Hth]; [lia|].
  pose proof Hinv' as (ph & Hphase & Hths & Hheld).
  destruct (Hths n th Hth) as (_ & _ & Hok). rewrite Hfree in Hok.
  destruct (t_pc th) as [| |g|entry|entry|result| |result| |] eqn:Hpc;
    try done; try (by destruct Hok).
  - destruct (finishes_AtEntry K σ' n th) as (m & th' & Hths' & Hret' & Hfree'); try done.
    exists (schedule ++ replicate m n). rewrite run_app. fold σ'.
    split_and!; [done|by rewrite Hths', length_insert|].
    intros t th'' Ht Hlook. rewrite Hths' in Hlook.
    destruct (decide (t = n)) as [->|Hne].
    + rewrite list_lookup_insert_eq in Hlook by lia. by injection Hlook as <-.
    + rewrite list_lookup_insert_ne in Hlook by done. apply (Hret t); [lia|done].
  - exists schedule. split_and!; [done|done|].
    intros t th'' Ht Hlook. destruct (decide (t = n)) as [->|Hne].
    + fold σ' in Hlook. rewrite Hth in Hlook. injection Hlook as <-. by eexists.
    + apply (Hret t); [lia|done].
Qed.

Lemma race_completes K σ :
  race_invariant K σ -> exists schedule, all_returned (run schedule σ).
Proof.
  intros Hinv.
  assert (exists s0, _rwlock (run s0 σ) = None) as [s0 Hfree].
  { destruct (_rwlock σ) as [h|] eqn:Hlock; [|by exists []].
    destruct (finishes_holder K σ h Hinv Hlock) as (m & th' & _ & _ & Hfree). eauto. }
  pose proof (race_invariant_run K σ s0 Hinv) as Hinv0.
  destruct (first_threads_return K (run s0 σ) (length (threads (run s0 σ))) Hinv0 Hfree)
    as (s1 & _ & Hlen & Hret); [done|].
  exists (s0 ++ s1). rewrite run_app. apply Forall_lookup. intros t th Hth.
  apply (Hret t); [|done]. rewrite <- Hlen. by eapply lookup_lt_Some.
Qed.

(** C2 (amended).  Threads race through [registerIfAbsent] for a key that is
    not registered, each with its own factory, and every factory returns a
    non-null entry whose namespace ID is that key.  Whatever the
    interleaving: at most one factory is ever called; once all threads have
    returned, exactly one factory has been called and all threads hold the
    same pointer, the one [_nsmap] holds under the key; and from wherever
    the threads are, they can all be brought to return. *)
Theorem registerIfAbsent_race r K (factories : list (Factory ID EntryRef)) :
  _nsmap r !! K = None ->
  factories <> [] ->
  Forall (creates_for K) factories ->
  (forall schedule,
     sys_factory_calls (run schedule (race r K factories)) <= 1 /\
     (all_returned (run schedule (race r K factories)) ->
      sys_factory_calls (run schedule (race r K factories)) = 1 /\
      exists e, all_received e (run schedule (race r K factories)) /\
                _nsmap (sys_registry (run schedule (race r K factories))) !! K = Some e)) /\
  (forall schedule, exists schedule',
     all_returned (run (schedule ++ schedule') (race r K factories))).
Proof.
  intros Hn Hne Hfs.
  pose proof (race_invariant_start r K factories Hn Hfs) as Hstart.
  split.
  - intros schedule.
    pose proof (race_invariant_run K _ schedule Hstart) as Hinv.
    split; [by eapply race_invariant_calls|].
    apply (race_invariant_all_returned K); [done|].
    intros Hnil. apply Hne.
    pose proof (run_length schedule (race r K factories)) as Hlen.
    rewrite Hnil in Hlen. cbn in Hlen. rewrite length_map in Hlen. by destruct factories.
  - intros schedule.
    destruct (race_completes K (run schedule (race r K factories))) as [schedule' Hall].
    { by apply race_invariant_run. }
    exists schedule'. by rewrite run_app.
Qed.

End race_facts.

(** * The scenarios, on concrete entries *)

Section scenarios.

Import Pid.

Lemma I1_with_A : I1 (registry with_A).
Proof. apply (bool_decide_unpack _ (dec := I1_dec _)). vm_compute. exact I. Qed.

(** C1, as stated, fails.  With [A] registered, index consistency holds;
    [registerEntry(B, true)], and likewise a [registerIfAbsent] whose factory
    returns [B], overwrites [_map[1]] with [B] and leaves [_nsmap[100]]
    pointing to [A], which [_map] no longer holds. *)
Lemma replace_breaks_index_consistency :
  I1 (registry with_A) /\
  ~ I1 (registry (snd (registerEntry (Some B) true with_A))) /\
  ~ I1 (registry (snd (registerIfAbsent 200%Z (FReturn (Some B)) with_A))) /\
  (let r' := registry (snd (registerEntry (Some B) true with_A)) in
   _nsmap r' !! nsid A = Some A /\ _map r' !! id A = Some B) /\
  (let r' := registry (snd (registerIfAbsent 200%Z (FReturn (Some B)) with_A)) in
   _nsmap r' !! nsid A = Some A /\ _map r' !! id A = Some B) /\
  B <> A.
Proof.
  split; [apply I1_with_A|].
  split_and!; try done.
  - intros [_ Hn]; specialize (Hn 100%Z A eq_refl) as [_ Hback].
    vm_compute in Hback. discriminate.
  - intros [_ Hn]; specialize (Hn 100%Z A eq_refl) as [_ Hback].
    vm_compute in Hback. discriminate.
Qed.

Lemma index_consistency_preserved_witness :
  I1 (registry with_A) /\
  I1 (registry (snd (registerEntry (Some D) true with_A))) /\
  I1 (registry (snd (unregisterEntryByID 1%Z with_A))).
Proof.
  assert (Hpre : I1 (registry with_A)).
  { apply (bool_decide_unpack _ (dec := I1_dec _)). vm_compute. exact I. }
  pose proof (index_consistency_preserved with_A Hpre)
    as (_ & Hreplace & _ & _ & Hid & _).
  split_and!; [exact Hpre| |apply Hid].
  apply Hreplace. split; intros h Hh; vm_compute in Hh; by injection Hh as <-.
Defined.

(** C2, as stated, fails.  Two threads call [registerIfAbsent(7, ...)] with
    factories whose entries have namespace IDs 100 and 200: both factories
    are called and the threads get different pointers.  And where the key is
    registered before the threads start, no factory is called at all. *)
Lemma race_calls_two_factories :
  all_returned (run one_after_the_other mismatched_race) /\
  sys_factory_calls (run one_after_the_other mismatched_race) = 2 /\
  map t_pc (threads (run one_after_the_other mismatched_race)) =
    [Returned (Some A); Returned (Some B)] /\
  A <> B /\
  all_returned (run [0; 0; 0; 1; 1; 1]%nat late_race) /\
  sys_factory_calls (run [0; 0; 0; 1; 1; 1]%nat late_race) = 0.
Proof.
  split_and!; try reflexivity; try discriminate.
  - repeat constructor; by eexists.
  - repeat constructor; by eexists.
Qed.

(** Three threads race for key 100; the schedule lets them take turns
    wherever the lock allows it. *)
Lemma registerIfAbsent_race_witness :
  let σ :=
    run [0; 1; 2; 0; 1; 0; 2; 0; 0; 0; 1; 1; 1; 2; 2; 2]%nat
      (race (registry empty) 100%Z
         [FReturn (Some A); FLookupEntryByID 1%Z (fun _ => FReturn (Some C));
          FReturn (Some D)]) in
  all_returned σ /\ sys_factory_calls σ = 1 /\ all_received A σ.
Proof.
  intros σ.
  destruct (registerIfAbsent_race (registry empty) 100%Z
              [FReturn (Some A); FLookupEntryByID 1%Z (fun _ => FReturn (Some C));
               FReturn (Some D)]) as [Hsafe _].
  - reflexivity.
  - discriminate.
  - repeat constructor.
  - destruct (Hsafe [0; 1; 2; 0; 1; 0; 2; 0; 0; 0; 1; 1; 1; 2; 2; 2]%nat) as [_ Hdone].
    fold σ in Hdone.
    assert (Hall : all_returned σ) by (repeat constructor; by eexists).
    destruct (Hdone Hall) as (Hcalls & e & Hrecv & Hn).
    split_and!; [done|done|].
    vm_compute in Hn. by injection Hn as <-.
Defined.

(** C3, as stated, fails.  [registerEntry(A)] and then
    [registerEntry(B, true)] leave [_map[1] = B], [_nsmap[100] = A] and
    [_nsmap[200] = B].  [unregisterEntryByNSID(100)] finds [A], derives
    [A]'s internal ID 1, finds it in [_map] and erases [_map[1]], which
    holds [B]: the call returns [true] and leaves [B], findable by both keys
    before, findable by its namespace ID only.  Likewise, after
    [registerEntry(C, true)], [unregisterEntryByID(1)] erases [_nsmap[100]],
    which holds [C], and leaves [C] findable by its internal ID only. *)
Lemma by_key_removal_orphans_entry :
  (let s2 := snd (registerEntry (Some B) true with_A) in
   let s3 := snd (unregisterEntryByNSID 100%Z s2) in
   registered (registry s2) B /\
   fst (unregisterEntryByNSID 100%Z s2) = Returns true /\
   _nsmap (registry s3) !! nsid B = Some B /\
   _map (registry s3) !! id B = None) /\
  (let s2 := snd (registerEntry (Some C) true with_A) in
   let s3 := snd (unregisterEntryByID 1%Z s2) in
   registered (registry s2) C /\
   fst (unregisterEntryByID 1%Z s2) = Returns true /\
   _map (registry s3) !! id C = Some C /\
   _nsmap (registry s3) !! nsid C = None).
Proof. cbv zeta. unfold registered. split_and!; reflexivity. Qed.

(** Scenario A: with [A] registered, [unregisterEntryByID(1)] returns [true],
    [lookupEntryByNSID(100)] then finds nothing, and the registry, consistent
    before, is consistent afterwards. *)
Lemma unregister_by_key_all_or_nothing_witness :
  exists s',
    unregisterEntryByID 1%Z with_A = (Returns true, s') /\
    _map (registry s') !! 1%Z = None /\ _nsmap (registry s') !! 100%Z = None /\
    fst (call_lookupEntryByNSID 100%Z s') = Returns None /\
    I1 (registry with_A) /\ I1 (registry s').
Proof.
  destruct (unregister_by_key_all_or_nothing with_A) as (Hid & _ & Hkeep).
  assert (Hpre : I1 (registry with_A)).
  { apply (bool_decide_unpack _ (dec := I1_dec _)). vm_compute. exact I. }
  destruct (Hkeep Hpre) as [Hpost_id _]. specialize (Hpost_id 1%Z).
  destruct (Hid 1%Z) as (b & s' & Hrun & Hpost).
  change (_map (registry with_A) !! 1%Z) with (Some A) in Hpost.
  change (_nsmap (registry with_A) !! nsid A) with (Some A) in Hpost.
  destruct Hpost as (-> & Hr & Hi & Hn).
  rewrite Hrun in Hpost_id. cbn [snd] in Hpost_id.
  exists s'. split_and!; [done|done|done| |done|done].
  rewrite call_lookupEntryByNSID_roundtrip by done.
  change (_nsmap (registry s') !! 100%Z) with (_nsmap (registry s') !! nsid A).
  by rewrite Hn.
Defined.

Lemma unregisterEntry_identity_checked_witness :
  fst (unregisterEntry (Some D) with_A) = Returns false /\
  registry (snd (unregisterEntry (Some D) with_A)) = registry with_A.
Proof.
  destruct (unregisterEntry_identity_checked with_A D) as (b & s' & Hrun & Hb & _ & Hfalse).
  rewrite Hrun; cbn [fst snd].
  assert (b = false) as ->.
  { destruct b; [|done]. destruct Hb as [Hb _]. destruct (Hb eq_refl) as [Hi _].
    vm_compute in Hi. discriminate. }
  split; [done|]. by apply Hfalse.
Defined.

(** Scenario B: [registerEntry(A)] succeeds; [registerEntry(B, false)], with
    [A]'s internal ID and another namespace ID, returns [false] and the
    registry still holds [A] only. *)
Lemma registerEntry_collision_rejected_witness :
  fst (registerEntry (Some A) false empty) = Returns true /\
  fst (registerEntry (Some B) false with_A) = Returns false /\
  registry (snd (registerEntry (Some B) false with_A)) = registry with_A /\
  registry with_A = mkRegistry {[ 1%Z := A ]} {[ 100%Z := A ]}.
Proof.
  split; [reflexivity|].
  destruct (registerEntry_collision_rejected with_A B) as [Hrej _].
  destruct Hrej as [Hf Hr].
  { left. vm_compute. by eexists. }
  split_and!; [done|done|reflexivity].
Defined.

(** C6, as stated, fails.  [registerEntry(A)] succeeds; then
    [registerEntry(B, true)] succeeds, and [lookupEntryByID(1)] returns [B]
    although no call has unregistered [A], which [lookupEntryByNSID(100)]
    still returns. *)
Lemma replace_breaks_dual_index_agreement :
  registerEntry (Some A) false empty = (Returns true, with_A) /\
  fst (registerEntry (Some B) true with_A) = Returns true /\
  (let s2 := run_calls [CallRegisterEntry (Some B) true] with_A in
   fst (lookupEntryByID (id A) s2) = Returns (Some (Some B)) /\
   fst (call_lookupEntryByNSID (nsid A) s2) = Returns (Some (Some A))) /\
  B <> A.
Proof. cbv zeta. split_and!; try reflexivity. discriminate. Qed.

Lemma dual_index_agreement_witness :
  let s2 :=
    run_calls [CallRegisterEntry (Some B) false; CallUnregisterEntryByID 2%Z;
               CallRegisterIfAbsent 200%Z (FReturn (Some (4%nat)))] with_A in
  fst (lookupEntryByID 1%Z s2) = Returns (Some (Some A)) /\
  fst (call_lookupEntryByNSID 100%Z s2) = Returns (Some (Some A)).
Proof.
  intros s2.
  destruct (dual_index_agreement empty A false with_A
              [CallRegisterEntry (Some B) false; CallUnregisterEntryByID 2%Z;
               CallRegisterIfAbsent 200%Z (FReturn (Some (4%nat)))])
    as (Hi & _ & Hn).
  - reflexivity.
  - cbn [undisturbed disturbs]. split_and!; [| | |done].
    + intros [Hr _]. discriminate.
    + intros (e' & He' & _). vm_compute in He'. discriminate.
    + intros (_ & e' & He' & _ & [Hk|Hk]); vm_compute in He';
        injection He' as <-; vm_compute in Hk; discriminate.
  - split; [apply Hi|by apply Hn].
Defined.

(** A factory that throws: the flag stays up and the next lookup takes no
    lock. *)
Lemma registerIfAbsent_flag_after_throw_witness :
  exists s',
    registerIfAbsent 100%Z throwing_factory empty = (Throws, s') /\
    _registeringWithLockHeld s' = true /\
    log (snd (lookupEntryByID 1%Z s')) = [LockExclusive; FactoryCall; UnlockExclusive].
Proof.
  destruct (registerIfAbsent_flag_after_throw empty 100%Z throwing_factory)
    as (s' & Hrun & Hlog & Hflag & _); [reflexivity..|].
  exists s'. split_and!; [done|done|].
  by rewrite lookupEntryByID_unfold, Hflag.
Defined.

Lemma registerIfAbsent_key_mismatch_witness :
  exists s1,
    registerIfAbsent 7%Z (FReturn (Some A)) empty = (Returns (Some A), s1) /\
    _nsmap (registry s1) !! 100%Z = Some A /\
    _nsmap (registry s1) !! 7%Z = None /\
    factory_calls (snd (registerIfAbsent 7%Z (FReturn (Some B)) s1)) = 2.
Proof.
  destruct (registerIfAbsent_key_mismatch empty 7%Z (FReturn (Some A)) A)
    as (s1 & Hrun & Hc & _ & _ & Hn & Hk & Hagain); [reflexivity|reflexivity|discriminate|].
  exists s1. split_and!; [done|done|done|].
  by rewrite Hagain, Hc.
Defined.

Lemma registerIfAbsent_null_deref_witness :
  fst (registerIfAbsent 100%Z (FReturn None) empty) = NullDeref /\
  fst (registerIfAbsent 100%Z (FReturn (Some B)) empty) = Returns (Some B).
Proof.
  split.
  - apply (registerIfAbsent_null_deref empty 100%Z (FReturn None)). by split.
  - by apply (registerIfAbsent_null_deref empty 100%Z (FReturn (Some B))).
Defined.

End scenarios.

Section narrow_keys.

Import Narrow.

(** C7, at the failing input.  [ID] is [uint8_t], [NSID] is [uint16_t], and
    [E300] is registered under namespace ID 300.  The call
    [lookupEntryByNSID(300)] passes 300 through the [ID] parameter, looks 44
    up, and returns an empty result; once [E44] is registered under namespace
    ID 44, the same call returns [E44]. *)
Lemma lookupEntryByNSID_truncates_key :
  let s1 := snd (registerEntry (Some E300) false empty) in
  let s2 := snd (registerEntry (Some E44) false s1) in
  _nsmap (registry s1) !! 300%Z = Some E300 /\
  fst (call_lookupEntryByNSID 300%Z s1) = Returns None /\
  _nsmap (registry s2) !! 300%Z = Some E300 /\
  fst (call_lookupEntryByNSID 300%Z s2) = Returns (Some (Some E44)).
Proof. cbv zeta. split_and!; reflexivity. Qed.

End narrow_keys.

(** * Further facts about the methods *)

Section registry_more.

Context {ID NSID EntryRef : Type}.
Context `{EntryClass ID NSID EntryRef}.

Implicit Types (s : state ID NSID EntryRef) (r : Registry ID NSID EntryRef).
Implicit Types (e : EntryRef) (f : Factory ID EntryRef).

Lemma erase_store_both r e :
  ~ taken r e -> erase_both (store_both r e) (id e) (nsid e) = r.
Proof.
  intros Hfree. destruct r as [m nm]. unfold erase_both, store_both; cbn. f_equal.
  - apply delete_insert_id. destruct (m !! id e) eqn:Hi; [|done].
    destruct Hfree. left. by eexists.
  - apply delete_insert_id. destruct (nm !! nsid e) eqn:Hn; [|done].
    destruct Hfree. right. by eexists.
Qed.

(** X1.  The three removals agree on a registered entry.  When both maps
    hold the pointer [e] under [e]'s keys, [unregisterEntry(e)],
    [unregisterEntryByID(e->id())] and [unregisterEntryByNSID(e->nsid())]
    all return [true] and leave the same registry: the one without the two
    index entries of [e]. *)
Theorem unregister_registered s e :
  registered (registry s) e ->
  (fst (unregisterEntry (Some e) s) = Returns true /\
   registry (snd (unregisterEntry (Some e) s)) = erase_both (registry s) (id e) (nsid e)) /\
  (fst (unregisterEntryByID (id e) s) = Returns true /\
   registry (snd (unregisterEntryByID (id e) s)) = erase_both (registry s) (id e) (nsid e)) /\
  (fst (unregisterEntryByNSID (nsid e) s) = Returns true /\
   registry (snd (unregisterEntryByNSID (nsid e) s)) = erase_both (registry s) (id e) (nsid e)).
Proof.
  intros Hreg. pose proof Hreg as [Hi Hn]. split_and!.
  - by rewrite unregisterEntry_unfold, decide_True.
  - by rewrite unregisterEntry_unfold, decide_True.
  - by rewrite unregisterEntryByID_unfold, Hi, Hn.
  - by rewrite unregisterEntryByID_unfold, Hi, Hn.
  - by rewrite unregisterEntryByNSID_unfold, Hn, Hi.
  - by rewrite unregisterEntryByNSID_unfold, Hn, Hi.
Qed.

(** X2.  Insert and remove undo each other.  After [registerEntry(e)]
    without replacement has returned [true], each of the three removals,
    called for [e], returns [true] and leaves both maps exactly as they were
    before the insertion. *)
Theorem register_unregister_roundtrip s e s1 :
  registerEntry (Some e) false s = (Returns true, s1) ->
  (fst (unregisterEntry (Some e) s1) = Returns true /\
   registry (snd (unregisterEntry (Some e) s1)) = registry s) /\
  (fst (unregisterEntryByID (id e) s1) = Returns true /\
   registry (snd (unregisterEntryByID (id e) s1)) = registry s) /\
  (fst (unregisterEntryByNSID (nsid e) s1) = Returns true /\
   registry (snd (unregisterEntryByNSID (nsid e) s1)) = registry s).
Proof.
  intros Hins.
  pose proof (registered_after_registerEntry s e false s1 Hins) as Hreg.
  assert (Hback : erase_both (registry s1) (id e) (nsid e) = registry s).
  { rewrite registerEntry_unfold in Hins. case_decide as Htaken; [done|].
    injection Hins as <-. cbn. apply erase_store_both. intros Ht. by apply Htaken. }
  pose proof Hreg as [Hi Hn]. split_and!.
  - by rewrite unregisterEntry_unfold, decide_True.
  - by rewrite unregisterEntry_unfold, decide_True.
  - by rewrite unregisterEntryByID_unfold, Hi, Hn.
  - by rewrite unregisterEntryByID_unfold, Hi, Hn.
  - by rewrite unregisterEntryByNSID_unfold, Hn, Hi.
  - by rewrite unregisterEntryByNSID_unfold, Hn, Hi.
Qed.

(** X3.  Removing twice.  After a removal has returned [true], the same
    removal called again returns [false] and changes neither map. *)
Theorem unregister_twice s :
  (forall i s1,
     unregisterEntryByID i s = (Returns true, s1) ->
     fst (unregisterEntryByID i s1) = Returns false /\
     registry (snd (unregisterEntryByID i s1)) = registry s1) /\
  (forall n s1,
     unregisterEntryByNSID n s = (Returns true, s1) ->
     fst (unregisterEntryByNSID n s1) = Returns false /\
     registry (snd (unregisterEntryByNSID n s1)) = registry s1) /\
  (forall e s1,
     unregisterEntry (Some e) s = (Returns true, s1) ->
     fst (unregisterEntry (Some e) s1) = Returns false /\
     registry (snd (unregisterEntry (Some e) s1)) = registry s1).
Proof.
  split_and!.
  - intros i s1. rewrite unregisterEntryByID_unfold.
    destruct (_map (registry s) !! i) as [entry|]; [|done].
    destruct (_nsmap (registry s) !! nsid entry); [|done].
    intros [= <-]. rewrite unregisterEntryByID_unfold; cbn.
    by rewrite lookup_delete_eq.
  - intros n s1. rewrite unregisterEntryByNSID_unfold.
    destruct (_nsmap (registry s) !! n) as [entry|]; [|done].
    destruct (_map (registry s) !! id entry); [|done].
    intros [= <-]. rewrite unregisterEntryByNSID_unfold; cbn.
    by rewrite lookup_delete_eq.
  - intros e s1. rewrite unregisterEntry_unfold. case_decide; [|done].
    intros [= <-]. rewrite unregisterEntry_unfold.
    rewrite decide_False; [done|]. intros [Hi _]. cbn in Hi.
    by rewrite lookup_delete_eq in Hi.
Qed.

(** X4.  Calls are local.  A call changes [_map] at most under the
    internal ID, and [_nsmap] at most under the namespace ID, of the one
    entry it stores or erases: the argument of [registerEntry] and
    [unregisterEntry], the entry found by a removal by key, the entry the
    factory of [registerIfAbsent] returned.  Every other key of either map
    is mapped as before. *)
Theorem calls_are_local s :
  (forall e (replace : bool) j m,
     (j <> id e ->
      _map (registry (snd (registerEntry (Some e) replace s))) !! j = _map (registry s) !! j) /\
     (m <> nsid e ->
      _nsmap (registry (snd (registerEntry (Some e) replace s))) !! m =
        _nsmap (registry s) !! m)) /\
  (forall e j m,
     (j <> id e ->
      _map (registry (snd (unregisterEntry (Some e) s))) !! j = _map (registry s) !! j) /\
     (m <> nsid e ->
      _nsmap (registry (snd (unregisterEntry (Some e) s))) !! m = _nsmap (registry s) !! m)) /\
  (forall i j m,
     (j <> i ->
      _map (registry (snd (unregisterEntryByID i s))) !! j = _map (registry s) !! j) /\
     ((forall e, _map (registry s) !! i = Some e -> m <> nsid e) ->
      _nsmap (registry (snd (unregisterEntryByID i s))) !! m = _nsmap (registry s) !! m)) /\
  (forall n j m,
     ((forall e, _nsmap (registry s) !! n = Some e -> j <> id e) ->
      _map (registry (snd (unregisterEntryByNSID n s))) !! j = _map (registry s) !! j) /\
     (m <> n ->
      _nsmap (registry (snd (unregisterEntryByNSID n s))) !! m = _nsmap (registry s) !! m)) /\
  (forall n f j m,
     ((forall e, factory_result f (registry s) = Returns (Some e) -> j <> id e) ->
      _map (registry (snd (registerIfAbsent n f s))) !! j = _map (registry s) !! j) /\
     ((forall e, factory_result f (registry s) = Returns (Some e) -> m <> nsid e) ->
      _nsmap (registry (snd (registerIfAbsent n f s))) !! m = _nsmap (registry s) !! m)).
Proof.
  split_and!.
  - intros e replace j m. rewrite registerEntry_unfold.
    case_decide; [done|]; cbn. split; intros Hne; by rewrite lookup_insert_ne.
  - intros e j m. rewrite unregisterEntry_unfold.
    case_decide; [|done]; cbn. split; intros Hne; by rewrite lookup_delete_ne.
  - intros i j m. rewrite unregisterEntryByID_unfold.
    destruct (_map (registry s) !! i) as [entry|]; [|done].
    destruct (_nsmap (registry s) !! nsid entry); [|done]; cbn.
    split; intros Hne; rewrite lookup_delete_ne; try done.
    intros Heq. by apply (Hne entry).
  - intros n j m. rewrite unregisterEntryByNSID_unfold.
    destruct (_nsmap (registry s) !! n) as [entry|]; [|done].
    destruct (_map (registry s) !! id entry); [|done]; cbn.
    split; intros Hne; rewrite lookup_delete_ne; try done.
    intros Heq. by apply (Hne entry).
  - intros n f j m. rewrite registerIfAbsent_unfold.
    destruct (_nsmap (registry s) !! n); [done|].
    destruct (factory_result f (registry s)) as [[e|]| |]; try done; cbn.
    split; intros Hne; rewrite lookup_insert_ne; try done;
      intros Heq; by apply (Hne e).
Qed.

(** X5.  The two lookups agree on a consistent registry.  In a state that
    satisfies I1, the entry [lookupEntryByID(k)] returns has internal ID [k]
    and is what [lookupEntryByNSID] returns for its namespace ID; and the
    entry [lookupEntryByNSID] returns has the namespace ID looked up and is
    what [lookupEntryByID] returns for its internal ID. *)
Theorem lookups_agree s :
  I1 (registry s) ->
  (forall k e,
     fst (lookupEntryByID k s) = Returns (Some (Some e)) ->
     id e = k /\
     forall i, ID_to_NSID i = nsid e ->
               fst (lookupEntryByNSID i s) = Returns (Some (Some e))) /\
  (forall i e,
     fst (lookupEntryByNSID i s) = Returns (Some (Some e)) ->
     nsid e = ID_to_NSID i /\
     fst (lookupEntryByID (id e) s) = Returns (Some (Some e))).
Proof.
  intros HI. split.
  - intros k e. rewrite lookupEntryByID_unfold; cbn [fst].
    destruct (_map (registry s) !! k) as [e'|] eqn:Hk; [|done]. intros [= ->].
    destruct (I1_lookup_map _ _ _ HI Hk) as [Hid [_ Hn]]. split; [done|].
    intros i Hi. by rewrite lookupEntryByNSID_unfold, Hi, Hn.
  - intros i e. rewrite lookupEntryByNSID_unfold; cbn [fst].
    destruct (_nsmap (registry s) !! ID_to_NSID i) as [e'|] eqn:Hk; [|done]. intros [= ->].
    destruct (I1_lookup_nsmap _ _ _ HI Hk) as [Hid [Hi _]]. split; [done|].
    by rewrite lookupEntryByID_unfold, Hi.
Qed.

(** X6.  A lookup made by the factory.  A factory that starts with
    [lookupEntryByID(i)] (or [lookupEntryByNSID(i)]) gets what the maps held
    when [registerIfAbsent] was called, and the call goes on exactly as with
    the factory that was handed this result: the nested lookup leaves no
    event in the log, it takes no lock. *)
Theorem registerIfAbsent_factory_lookup s n :
  (forall i k,
     registerIfAbsent n (FLookupEntryByID i k) s =
       registerIfAbsent n (k (optional (_map (registry s) !! i))) s) /\
  (forall i k,
     registerIfAbsent n (FLookupEntryByNSID i k) s =
       registerIfAbsent n (k (optional (_nsmap (registry s) !! ID_to_NSID i))) s).
Proof.
  split; intros i k; rewrite !registerIfAbsent_unfold.
  - by rewrite factory_result_FLookupEntryByID.
  - by rewrite factory_result_FLookupEntryByNSID.
Qed.


(** X8.  A call that fails changes nothing.  When [registerEntry] or a
    removal does not return [true], and when [registerIfAbsent] is left by
    the factory's exception, both maps are what they were before the
    call. *)
Theorem failed_calls_change_nothing s :
  (forall entry (replace : bool),
     fst (registerEntry entry replace s) <> Returns true ->
     registry (snd (registerEntry entry replace s)) = registry s) /\
  (forall i,
     fst (unregisterEntryByID i s) <> Returns true ->
     registry (snd (unregisterEntryByID i s)) = registry s) /\
  (forall n,
     fst (unregisterEntryByNSID n s) <> Returns true ->
     registry (snd (unregisterEntryByNSID n s)) = registry s) /\
  (forall entry,
     fst (unregisterEntry entry s) <> Returns true ->
     registry (snd (unregisterEntry entry s)) = registry s) /\
  (forall n f,
     fst (registerIfAbsent n f s) = Throws ->
     registry (snd (registerIfAbsent n f s)) = registry s).
Proof.
  split_and!.
  - intros [e|] replace; [|by destruct replace].
    rewrite registerEntry_unfold. by case_decide.
  - intros i. rewrite unregisterEntryByID_unfold.
    destruct (_map (registry s) !! i) as [entry|]; [|done].
    by destruct (_nsmap (registry s) !! nsid entry).
  - intros n. rewrite unregisterEntryByNSID_unfold.
    destruct (_nsmap (registry s) !! n) as [entry|]; [|done].
    by destruct (_map (registry s) !! id entry).
  - intros [e|]; [|done]. rewrite unregisterEntry_unfold. by case_decide.
  - intros n f. rewrite registerIfAbsent_unfold.
    destruct (_nsmap (registry s) !! n); [done|].
    by destruct (factory_result f (registry s)) as [[e|]| |].
Qed.

(** ** The lock events of a thread *)

Lemma lock_mode_after_app (m : lock_mode) (evs1 evs2 : list event) :
  lock_mode_after m (evs1 ++ evs2) =
    match lock_mode_after m evs1 with
    | Some m' => lock_mode_after m' evs2
    | None => None
    end.
Proof.
  revert m. induction evs1 as [|ev evs1 IH]; intros m; [done|].
  destruct m, ev; cbn; try done; apply IH.
Qed.

Lemma well_locked_app (evs1 evs2 : list event) :
  well_locked evs1 -> well_locked evs2 -> well_locked (evs1 ++ evs2).
Proof.
  unfold well_locked. intros H1' H2'. by rewrite lock_mode_after_app, H1'.
Qed.

Lemma after_exclusive_log s r (b : bool) (evs : list event) :
  log (after_exclusive s r b evs) = log s ++ (LockExclusive :: evs ++ [UnlockExclusive]).
Proof. done. Qed.

Lemma call_well_locked (c : call) s :
  exists evs,
    log (run_call c s) = log s ++ evs /\
    (call_outcome c s <> NullDeref -> well_locked evs).
Proof.
  destruct c as [n f|entry replace|i|n|entry|i|i]; unfold run_call, call_outcome.
  - rewrite registerIfAbsent_unfold.
    destruct (_nsmap (registry s) !! n); [by eexists|].
    destruct (factory_result f (registry s)) as [[e|]| |]; by eexists.
  - destruct entry as [e|].
    + rewrite registerEntry_unfold. case_decide; by eexists.
    + exists [LockExclusive]. by destruct replace.
  - rewrite unregisterEntryByID_unfold.
    destruct (_map (registry s) !! i) as [entry|]; [|by eexists].
    destruct (_nsmap (registry s) !! nsid entry); by eexists.
  - rewrite unregisterEntryByNSID_unfold.
    destruct (_nsmap (registry s) !! n) as [entry|]; [|by eexists].
    destruct (_map (registry s) !! id entry); by eexists.
  - destruct entry as [e|].
    + rewrite unregisterEntry_unfold. case_decide; by eexists.
    + by exists [LockExclusive].
  - rewrite lookupEntryByID_unfold. destruct (_registeringWithLockHeld s); cbn.
    + exists []. by rewrite app_nil_r.
    + by eexists.
  - rewrite lookupEntryByNSID_unfold. destruct (_registeringWithLockHeld s); cbn.
    + exists []. by rewrite app_nil_r.
    + by eexists.
Qed.

(** X9.  Locks are taken and released in pairs.  A thread that holds
    nothing of [_rwlock] makes any sequence of calls of [registerIfAbsent],
    [registerEntry], the three removals and the two lookups (the seven
    methods of [call]; [lock()], [unlock()] and [scopedLock()], which hand
    the lock to the caller, are not among them), and none of the calls runs
    into a null dereference.  Then the lock events of these calls are well
    formed: every exclusive or shared acquisition is followed by its release
    before the next acquisition, also where a factory throws, a factory is
    called only with the exclusive lock held, and nothing is held at the
    end. *)
Theorem calls_well_locked (cs : list call) s :
  no_crash cs s ->
  exists evs, log (run_calls cs s) = log s ++ evs /\ well_locked evs.
Proof.
  revert s. induction cs as [|c cs IH]; intros s Hcs.
  { exists []. by rewrite app_nil_r. }
  destruct Hcs as [Hc Hcs].
  destruct (call_well_locked c s) as (evs1 & Hlog1 & Hwl1).
  destruct (IH (run_call c s) Hcs) as (evs2 & Hlog2 & Hwl2).
  exists (evs1 ++ evs2). split.
  - change (run_calls (c :: cs) s) with (run_calls cs (run_call c s)).
    by rewrite Hlog2, Hlog1, app_assoc.
  - apply well_locked_app; auto.
Qed.

(** ** Index consistency along a sequence of calls *)

Lemma I1_run_call (c : call) s :
  I1 (registry s) -> stores_cleanly c s -> I1 (registry (run_call c s)).
Proof.
  intros HI Hclean. destruct c as [n f|entry replace|i|n|entry|i|i]; unfold run_call.
  - by apply I1_registerIfAbsent.
  - destruct replace; [|by apply I1_registerEntry_no_replace].
    destruct entry as [e|]; [|done].
    rewrite registerEntry_replace_registry. by apply I1_store_both.
  - by apply I1_unregisterEntryByID.
  - by apply I1_unregisterEntryByNSID.
  - by apply I1_unregisterEntry.
  - rewrite lookupEntryByID_unfold. by destruct (_registeringWithLockHeld s).
  - rewrite lookupEntryByNSID_unfold. by destruct (_registeringWithLockHeld s).
Qed.

(** X15.  Index consistency along any sequence of calls.  From a state that
    satisfies I1, a thread's calls lead to a state that satisfies I1, however
    many they are and whatever they return or throw, as long as each entry
    stored over existing ones (by a [registerEntry] with replacement or by
    the factory of a [registerIfAbsent]) shares no single key with a
    registered entry at that moment. *)
Theorem index_consistency_along_calls (cs : list call) s :
  I1 (registry s) -> all_store_cleanly cs s -> I1 (registry (run_calls cs s)).
Proof.
  revert s. induction cs as [|c cs IH]; intros s HI Hcs; [done|].
  destruct Hcs as [Hc Hcs].
  change (run_calls (c :: cs) s) with (run_calls cs (run_call c s)).
  apply IH; [|done]. by apply I1_run_call.
Qed.

(** ** The sizes of the two maps *)

Lemma I1_size_step (k : nat) :
  forall r, I1 r -> size (_map r) = k -> size (_nsmap r) = k.
Proof.
  induction k as [|k IH]; intros r HI Hsize.
  - apply map_size_empty_iff. apply map_empty. intros n.
    destruct (_nsmap r !! n) as [e|] eqn:Hn; [|done].
    destruct (I1_lookup_nsmap _ _ _ HI Hn) as [_ [Hi _]].
    apply map_size_empty_inv in Hsize. rewrite Hsize in Hi. by rewrite lookup_empty in Hi.
  - destruct (map_choose (_map r)) as (i & e & Hi).
    { apply map_size_non_empty_iff. lia. }
    destruct (I1_lookup_map _ _ _ HI Hi) as [<- Hreg].
    pose proof (I1_erase_both r e HI Hreg) as HI'.
    destruct Hreg as [_ Hn].
    specialize (IH (erase_both r (id e) (nsid e)) HI'). cbn in IH.
    rewrite !map_size_delete, Hi, Hn in IH; cbn in IH.
    assert (size (_nsmap r) <> 0).
    { apply map_size_non_empty_iff. intros Hempty. rewrite Hempty in Hn.
      by rewrite lookup_empty in Hn. }
    specialize (IH ltac:(lia)). lia.
Qed.

(** X11.  Both indexes have the same number of entries.  In every state that
    satisfies I1, [_map] and [_nsmap] have the same size. *)
Theorem I1_same_size r : I1 r -> size (_map r) = size (_nsmap r).
Proof. intros HI. symmetry. by apply I1_size_step. Qed.

End registry_more.

(** * Further facts about racing threads *)

Section race_more.

Context {ID NSID EntryRef : Type}.
Context `{EntryClass ID NSID EntryRef}.

Implicit Types (σ : system ID NSID EntryRef) (th : thread ID NSID EntryRef).
Implicit Types (t h : nat).

Lemma lock_discipline_update σ t th th' r' (lock' : option nat) (n' : nat) :
  lock_discipline σ ->
  threads σ !! t = Some th ->
  _rwlock σ = None \/ _rwlock σ = Some t ->
  (if in_critical (t_pc th') then lock' = Some t else lock' = None) ->
  (forall g, t_pc th' = InFactory g -> t_registeringWithLockHeld th' = true) ->
  lock_discipline (mkSystem r' lock' (<[t := th']> (threads σ)) n').
Proof.
  intros (Hcrit & Hflag & Hheld) Hth Hlock Hlock' Hflag'.
  pose proof (lookup_lt_Some _ _ _ Hth) as Hlt.
  split_and!; cbn.
  - intros t' th'' Hlook Hin. destruct (decide (t' = t)) as [->|Hne].
    + rewrite list_lookup_insert_eq in Hlook by done. injection Hlook as <-.
      by rewrite Hin in Hlock'.
    + rewrite list_lookup_insert_ne in Hlook by done.
      pose proof (Hcrit t' th'' Hlook Hin) as Hown.
      destruct Hlock as [Hl|Hl]; rewrite Hl in Hown; congruence.
  - intros t' th'' g Hlook Hpc. destruct (decide (t' = t)) as [->|Hne].
    + rewrite list_lookup_insert_eq in Hlook by done. injection Hlook as <-. by eapply Hflag'.
    + rewrite list_lookup_insert_ne in Hlook by done. by eapply Hflag.
  - intros h' Hh. destruct (in_critical (t_pc th')) eqn:Hin; [|congruence].
    rewrite Hlock' in Hh. injection Hh as <-. exists th'.
    by rewrite list_lookup_insert_eq.
Qed.

Lemma lock_discipline_step σ σ' t :
  lock_discipline σ -> step t σ = Some σ' -> lock_discipline σ'.
Proof.
  intros Hdisc Hstep. pose proof Hdisc as (Hcrit & Hflag & Hheld).
  unfold step in Hstep.
  destruct (threads σ !! t) as [th|] eqn:Hth; [|done].
  assert (Hown : in_critical (t_pc th) = true -> _rwlock σ = Some t) by (by apply Hcrit).
  destruct (t_pc th) as [| |[entry| |i k|i k]|[e|]|[e|]|result| |result| |] eqn:Hpc;
    try done;
    repeat (case_match; try done); simplify_eq;
    (eapply lock_discipline_update;
       [ done
       | done
       | first [by left | by (right; apply Hown)]
       | cbn; first [done | by apply Hown]
       | cbn; intros g' Hg; first [done | by simplify_eq] ]).
Qed.

Lemma lock_discipline_run σ (schedule : list nat) :
  lock_discipline σ -> lock_discipline (run schedule σ).
Proof.
  revert σ. induction schedule as [|t schedule IH]; intros σ Hdisc; [done|].
  cbn. apply IH. destruct (step t σ) as [σ'|] eqn:Hstep; [|done].
  by eapply lock_discipline_step.
Qed.

Lemma lock_discipline_quiescent σ : quiescent σ -> lock_discipline σ.
Proof.
  intros [Hfree Hall]. rewrite Forall_lookup in Hall. split_and!.
  - intros t th Hth Hin. by rewrite (Hall t th Hth) in Hin.
  - intros t th g Hth Hpc. by rewrite (Hall t th Hth) in Hpc.
  - intros h Hh. congruence.
Qed.

Lemma quiescent_race r (K : NSID) (factories : list (Factory ID EntryRef)) :
  quiescent (race r K factories).
Proof.
  split; [done|]. apply Forall_lookup. intros t th Hth. cbn in Hth.
  by apply list_lookup_fmap_Some in Hth as (f & -> & _).
Qed.

(** X12.  Mutual exclusion.  Threads start outside the method, with any
    keys and any factories.  However they are scheduled, at most one of them
    is between taking [_rwlock] and releasing it, and it is the one recorded
    as the lock's owner. *)
Theorem mutual_exclusion σ (schedule : list nat) :
  quiescent σ ->
  forall t1 t2 th1 th2,
    threads (run schedule σ) !! t1 = Some th1 ->
    threads (run schedule σ) !! t2 = Some th2 ->
    in_critical (t_pc th1) = true ->
    in_critical (t_pc th2) = true ->
    t1 = t2 /\ _rwlock (run schedule σ) = Some t1.
Proof.
  intros Hq t1 t2 th1 th2 Ht1 Ht2 Hin1 Hin2.
  destruct (lock_discipline_run σ schedule (lock_discipline_quiescent σ Hq))
    as (Hcrit & _ & _).
  pose proof (Hcrit t1 th1 Ht1 Hin1) as Hown1.
  pose proof (Hcrit t2 th2 Ht2 Hin2) as Hown2.
  split; [congruence|done].
Qed.

(** X13.  Nothing waits inside the method.  However the threads are
    scheduled, a thread that is inside the method (and has not run into a
    null dereference) can always take its next step: in particular a lookup
    made by its factory never waits for the lock.  A thread waits only at
    the entry of the method, and exactly while the lock is held. *)
Theorem no_wait_inside σ (schedule : list nat) t th :
  quiescent σ ->
  threads (run schedule σ) !! t = Some th ->
  (in_critical (t_pc th) = true -> t_pc th <> Crashed ->
   is_Some (step t (run schedule σ))) /\
  (t_pc th = AtEntry ->
   (step t (run schedule σ) = None <-> is_Some (_rwlock (run schedule σ)))).
Proof.
  intros Hq Hth.
  destruct (lock_discipline_run σ schedule (lock_discipline_quiescent σ Hq))
    as (_ & Hflag & _).
  specialize (Hflag t th).
  unfold step. rewrite Hth. split.
  - intros Hin Hlive.
    destruct (t_pc th) as [| |[entry| |i k|i k]|[e|]|[e|]|result| |result| |] eqn:Hpc;
      try done; try (by eexists);
      try (rewrite (Hflag _ Hth eq_refl); by eexists).
    by destruct (_nsmap (sys_registry (run schedule σ)) !! t_nsid th); eexists.
  - intros ->. destruct (_rwlock (run schedule σ)); split; intros Hx;
      try done; try (by eexists); by destruct Hx.
Qed.

Lemma blocked_system_stays σ (schedule : list nat) :
  (forall t, step t σ = None) -> run schedule σ = σ.
Proof.
  intros Hblocked. induction schedule as [|t schedule IH]; [done|].
  cbn. by rewrite Hblocked.
Qed.

(** X14.  [lock()] keeps the registry as it is.  Whatever the threads have
    done so far, a caller of [lock()] waits exactly while one of them is
    inside [registerIfAbsent]; once the caller has the lock, no thread moves
    under any schedule (no entry is added, no factory is called), and
    [unlock()] puts the system back to where it was when [lock()]
    returned. *)
Theorem lock_keeps_registry σ (schedule : list nat) h :
  quiescent σ ->
  (sys_lock h (run schedule σ) = None <->
   exists t th, threads (run schedule σ) !! t = Some th /\ in_critical (t_pc th) = true) /\
  (forall σ',
     sys_lock h (run schedule σ) = Some σ' ->
     (forall schedule', run schedule' σ' = σ') /\
     sys_unlock σ' = run schedule σ).
Proof.
  intros Hq.
  destruct (lock_discipline_run σ schedule (lock_discipline_quiescent σ Hq))
    as (Hcrit & _ & Hheld).
  set (σ1 := run schedule σ) in *. unfold sys_lock. split.
  - destruct (_rwlock σ1) as [h'|] eqn:Hlock; split; try done.
    + intros _. destruct (Hheld h' eq_refl) as (th & Hth & Hin). eauto.
    + intros (t & th & Hth & Hin). by specialize (Hcrit t th Hth Hin).
  - intros σ' Hsome. destruct (_rwlock σ1) eqn:Hlock; [done|].
    injection Hsome as <-. split.
    + intros schedule'. apply blocked_system_stays. intros t. unfold step; cbn.
      destruct (threads σ1 !! t) as [th|] eqn:Hth; [|done].
      specialize (Hcrit t th Hth).
      destruct (t_pc th); try done; by specialize (Hcrit eq_refl).
    + unfold sys_unlock; cbn. destruct σ1; cbn in *. by subst.
Qed.

End race_more.

(** * Further scenarios, on concrete entries *)

Section more_scenarios.

Import Pid.

Lemma unregister_registered_witness :
  registered (registry with_A) A /\
  fst (unregisterEntryByNSID 100%Z with_A) = Returns true /\
  registry (snd (unregisterEntryByNSID 100%Z with_A)) = registry (snd (unregisterEntry (Some A) with_A)).
Proof.
  assert (Hreg : registered (registry with_A) A) by (split; reflexivity).
  destruct (unregister_registered with_A A Hreg) as ((_ & Hptr) & _ & (Hret & Hkey)).
  split_and!; [done|exact Hret|].
  change (nsid A) with 100%Z in Hkey. by rewrite Hkey, Hptr.
Defined.

Lemma register_unregister_roundtrip_witness :
  registerEntry (Some A) false empty = (Returns true, with_A) /\
  registry (snd (unregisterEntryByID 1%Z with_A)) = registry empty.
Proof.
  split; [reflexivity|].
  destruct (register_unregister_roundtrip empty A with_A eq_refl) as (_ & (_ & Hid) & _).
  exact Hid.
Defined.

Lemma unregister_twice_witness :
  fst (unregisterEntryByID 1%Z with_A) = Returns true /\
  fst (unregisterEntryByID 1%Z (snd (unregisterEntryByID 1%Z with_A))) = Returns false.
Proof.
  split; [reflexivity|].
  destruct (unregister_twice with_A) as (Hid & _ & _).
  assert (Hfirst : unregisterEntryByID 1%Z with_A =
                     (Returns true, snd (unregisterEntryByID 1%Z with_A))) by reflexivity.
  by destruct (Hid 1%Z (snd (unregisterEntryByID 1%Z with_A)) Hfirst).
Defined.

Lemma calls_are_local_witness :
  _map (registry (snd (registerEntry (Some B) true with_A))) !! 2%Z = None /\
  _nsmap (registry (snd (registerEntry (Some B) true with_A))) !! 100%Z = Some A.
Proof.
  destruct (calls_are_local with_A) as (Hins & _).
  destruct (Hins B true 2%Z 100%Z) as [Hi Hn].
  split; [by rewrite Hi|by rewrite Hn].
Defined.

Lemma lookups_agree_witness :
  fst (lookupEntryByID 1%Z with_A) = Returns (Some (Some A)) /\
  fst (lookupEntryByNSID 100%Z with_A) = Returns (Some (Some A)).
Proof.
  assert (Hpre : I1 (registry with_A)).
  { apply (bool_decide_unpack _ (dec := I1_dec _)). vm_compute. exact I. }
  destruct (lookups_agree with_A Hpre) as [Hid _].
  destruct (Hid 1%Z A eq_refl) as [_ Hns].
  split; [reflexivity|]. by apply Hns.
Defined.


Lemma failed_calls_change_nothing_witness :
  fst (registerIfAbsent 7%Z throwing_factory with_A) = Throws /\
  registry (snd (registerIfAbsent 7%Z throwing_factory with_A)) = registry with_A.
Proof.
  split; [reflexivity|].
  destruct (failed_calls_change_nothing with_A) as (_ & _ & _ & _ & Hthrow).
  by apply Hthrow.
Defined.

Lemma calls_well_locked_witness :
  exists evs,
    log (run_calls
           [CallRegisterEntry (Some A) false;
            CallRegisterIfAbsent 7%Z throwing_factory;
            CallLookupEntryByID 1%Z;
            CallUnregisterEntry (Some A)] empty) = evs /\
    well_locked evs.
Proof.
  destruct (calls_well_locked
              [CallRegisterEntry (Some A) false;
               CallRegisterIfAbsent 7%Z throwing_factory;
               CallLookupEntryByID 1%Z;
               CallUnregisterEntry (Some A)] empty) as (evs & Hlog & Hwl).
  { cbn [no_crash]. split_and!; try done; vm_compute; discriminate. }
  exists evs. split; [by rewrite Hlog|done].
Defined.

Lemma I1_same_size_witness :
  size (_map (registry with_A)) = 1 /\ size (_nsmap (registry with_A)) = 1.
Proof.
  assert (Hpre : I1 (registry with_A)).
  { apply (bool_decide_unpack _ (dec := I1_dec _)). vm_compute. exact I. }
  pose proof (I1_same_size (registry with_A) Hpre) as Hsize.
  assert (Hone : size (_map (registry with_A)) = 1) by reflexivity.
  split; [done|]. by rewrite <- Hsize.
Defined.

Lemma index_consistency_along_calls_witness :
  I1 (registry (run_calls
                  [CallRegisterIfAbsent 200%Z (FReturn (Some (4%nat)));
                   CallRegisterEntry (Some D) true;
                   CallRegisterIfAbsent 7%Z throwing_factory;
                   CallUnregisterEntryByNSID 200%Z] with_A)).
Proof.
  apply index_consistency_along_calls.
  - apply (bool_decide_unpack _ (dec := I1_dec _)). vm_compute. exact I.
  - cbn [all_store_cleanly stores_cleanly].
    split; [|split; [|split; [|done]]].
    + intros e _ Hf. vm_compute in Hf. injection Hf as <-.
      split; intros h' Hh; vm_compute in Hh; discriminate.
    + split; intros h' Hh; vm_compute in Hh; by injection Hh as <-.
    + intros e _ Hf. vm_compute in Hf. discriminate.
Defined.

Lemma mutual_exclusion_witness :
  _rwlock (run [0; 1; 0; 1]%nat mismatched_race) = Some 0%nat.
Proof.
  assert (Hq : quiescent mismatched_race) by apply quiescent_race.
  destruct (mutual_exclusion mismatched_race [0; 1; 0; 1]%nat Hq 0%nat 0%nat
              (mkThread 7%Z (FReturn (Some A)) (InFactory (FReturn (Some A))) true)
              (mkThread 7%Z (FReturn (Some A)) (InFactory (FReturn (Some A))) true))
    as [_ Hown]; [reflexivity..|].
  exact Hown.
Defined.

Lemma no_wait_inside_witness :
  is_Some (step 0%nat (run [0; 0]%nat (race (registry with_A) 7%Z [throwing_factory]))).
Proof.
  assert (Hq : quiescent (race (registry with_A) 7%Z [throwing_factory]))
    by apply quiescent_race.
  destruct (no_wait_inside (race (registry with_A) 7%Z [throwing_factory]) [0; 0]%nat 0%nat
              (mkThread 7%Z throwing_factory (InFactory throwing_factory) true) Hq eq_refl)
    as [Hmove _].
  apply Hmove; [reflexivity|discriminate].
Defined.

Lemma lock_keeps_registry_witness :
  exists σ',
    sys_lock 2%nat (run one_after_the_other mismatched_race) = Some σ' /\
    run [0; 1; 0; 1]%nat σ' = σ' /\
    sys_lock 2%nat (run [0; 0]%nat mismatched_race) = None.
Proof.
  assert (Hq : quiescent mismatched_race) by apply quiescent_race.
  destruct (lock_keeps_registry mismatched_race one_after_the_other 2%nat Hq) as [_ Hfrozen].
  destruct (lock_keeps_registry mismatched_race [0; 0]%nat 2%nat Hq) as [Hwait _].
  eexists. split; [reflexivity|]. split.
  - by apply Hfrozen.
  - apply Hwait. exists 0%nat. eexists. split; reflexivity.
Defined.

End more_scenarios.
